(** * LBMeX guided tutorial (LBM / MRT): the driver [main_driver.cpp]

    A shallow embedding of [GuidedTutorials/LBM/MRT/main_driver.cpp] and of
    the operations of [lbm.H] and [StructFact.H] that the driver calls.

    Conventions.
    - [amrex::Real] is modelled by the mathematical reals [R]; rounding is not
      modelled.  The structural theorems about the driver use no law of
      arithmetic, only the shape of the expressions the code evaluates.
    - C++ [int] is modelled by [Z] (no wrap-around: the driver only counts
      steps and indexes cells).
    - A [MultiFab] over the single box of the [BoxArray] is a total function
      from cell and component to its value ([Array4]); what lies outside the
      allocated region is simply never read.
    - Calls into the plot-file writer, the structure-factor object and
      [Print()] are recorded, with their arguments, in an output trace. *)

From Stdlib Require Import ZArith Reals Lra Ascii String List.
From stdpp Require Import base decidable list gmap strings pretty.

Local Open Scope Z_scope.

(** ** Cells, boxes and arrays *)

(** [amrex::IntVect] in three dimensions. *)
Definition IntVect : Type := Z * Z * Z.

Definition ivx (p : IntVect) : Z := p.1.1.
Definition ivy (p : IntVect) : Z := p.1.2.
Definition ivz (p : IntVect) : Z := p.2.

(** [amrex::Box]: the cells between two corners, both included. *)
Record Box : Type := mkBox { smallEnd : IntVect; bigEnd : IntVect }.

(** [Box::grow(n)]: [n] more cells on every side. *)
Definition grow (b : Box) (n : Z) : Box :=
  mkBox (ivx (smallEnd b) - n, ivy (smallEnd b) - n, ivz (smallEnd b) - n)
        (ivx (bigEnd b) + n, ivy (bigEnd b) + n, ivz (bigEnd b) + n).

Definition in_box (b : Box) (p : IntVect) : Prop :=
  ivx (smallEnd b) <= ivx p <= ivx (bigEnd b) ∧
  ivy (smallEnd b) <= ivy p <= ivy (bigEnd b) ∧
  ivz (smallEnd b) <= ivz p <= ivz (bigEnd b).

Global Instance in_box_dec b p : Decision (in_box b p).
Proof. unfold in_box. apply _. Defined.

(** The integers [lo, lo+1, ..., hi]. *)
Definition zrange (lo hi : Z) : list Z := seqZ lo (hi - lo + 1).

(** The cells of a box in the order a loop nest over [z], [y], [x] visits
    them ([x] fastest). *)
Definition box_cells (b : Box) : list IntVect :=
  z ← zrange (ivz (smallEnd b)) (ivz (bigEnd b));
  y ← zrange (ivy (smallEnd b)) (ivy (bigEnd b));
  x ← zrange (ivx (smallEnd b)) (ivx (bigEnd b));
  [(x, y, z)].

(** [amrex::Array4<Real>]: [a p n] is [a(x,y,z,n)]. *)
Definition Array4 : Type := IntVect → nat → R.

(** The assignment [a(x,y,z,n) = v]. *)
Definition set4 (a : Array4) (p : IntVect) (n : nat) (v : R) : Array4 :=
  fun q m => if decide (q = p ∧ m = n) then v else a q m.

(** [for (int i = 0; i < n; ++i) body(i)] on a state [S]. *)
Definition for_loop {S : Type} (n : nat) (body : nat → S → S) (s : S) : S :=
  foldl (fun s i => body i s) s (seq 0 n).

(** [ParallelFor] over the cells of a box: the kernel runs once per cell. *)
Definition ParallelFor {S : Type} (b : Box) (kernel : IntVect → S → S) (s : S) : S :=
  foldl (fun s p => kernel p s) s (box_cells b).

(** The accumulation [acc = 0; for (i < n) acc += g(i)] as a value. *)
Fixpoint sum_n (n : nat) (g : nat → R) : R :=
  match n with
  | O => 0%R
  | S n' => (sum_n n' g + g n')%R
  end.

(** ** What the driver takes from [lbm.H]

    [lbm.H] declares the lattice ([ncomp], [c]), the globals [tau] and
    [temperature] that [pp.query] overwrites, and the kernels [fequilibrium]
    and [stream_collide].  The driver is written against this interface.
    The kernels read the two globals; here they receive them as arguments. *)
Class LbmHeader : Type := {
  RandomEngine : Type;
  ncomp : nat;
  c : nat → nat → Z;
  tau_init : R;
  temperature_init : R;
  fequilibrium : R → R * R * R → nat → R;
  stream_collide :
    R → R → IntVect → Array4 → Array4 → RandomEngine → Array4 * RandomEngine
}.

(** ** Input parameters *)

(** [amrex::ParmParse]: the table of the inputs file, already split into the
    integer-valued and the real-valued keys. *)
Record ParmParse : Type := mkPP {
  pp_int : gmap string Z;
  pp_real : gmap string R
}.

(** [pp.query(name, ref)]: [ref] is overwritten when [name] is in the table
    and keeps its value otherwise. *)
Definition query {V : Type} (tbl : gmap string V) (name : string) (ref : V) : V :=
  match tbl !! name with
  | Some v => v
  | None => ref
  end.

Record Params : Type := mkParams {
  nx : Z;
  nsteps : Z;
  plot_int : Z;
  tau : R;
  temperature : R;
  A : R
}.

(** ** Output trace *)

Inductive event : Type :=
| WriteSingleLevelPlotfile
    (pltfile : string) (mf : Array4) (varnames : list string) (time : R) (step : Z)
| FortStructure (variables : Array4)
| WritePlotFile (step : Z) (time : R) (plotfile_base : string)
| Print (step : Z).

(** [amrex::Concatenate(root, num, mindigits)]: [root] followed by [num] in
    decimal, padded with zeros on the left to [mindigits] characters. *)
Fixpoint zeros (n : nat) : string :=
  match n with
  | O => EmptyString
  | S n' => String "0"%char (zeros n')
  end.

Definition Concatenate (root : string) (num : Z) (mindigits : nat) : string :=
  let digits := pretty num in
  root +:+ zeros (mindigits - String.length digits) +:+ digits.

(** ** The driver *)

Section Driver.
Context `{H : LbmHeader}.

(** The contents of the three [MultiFab]s right after allocation. *)
Record RawMemory : Type := mkRaw {
  raw_fold : Array4;
  raw_fnew : Array4;
  raw_hydrovars : Array4
}.

Record State : Type := mkState {
  fold : Array4;
  fnew : Array4;
  hydrovars : Array4;
  structFactMF : Array4;
  time : R;
  engine : RandomEngine;
  out : list event
}.

(** Lines 16-30: defaults, then [pp.query] on each key. *)
Definition read_params (pp : ParmParse) : Params :=
  {| nx := query (pp_int pp) "nx" 16;
     nsteps := query (pp_int pp) "nsteps" 100;
     plot_int := query (pp_int pp) "plot_int" 10;
     tau := query (pp_real pp) "tau" tau_init;
     temperature := query (pp_real pp) "temperature" temperature_init;
     A := query (pp_real pp) "A" 0.001%R |}.

Definition nghost : Z := 1.

(** Lines 36-41: [Box domain(dom_lo, dom_hi)]. *)
Definition domain (P : Params) : Box :=
  mkBox (0, 0, 0) (nx P - 1, nx P - 1, nx P - 1).

(** The region [ParallelFor(mf, ngs, ...)] runs over. *)
Definition grown (P : Params) : Box := grow (domain P) nghost.

(** [MultiFab::setVal(0.)]. *)
Definition setVal0 : Array4 := fun _ _ => 0%R.

(** Lines 92-97, the body of the initialisation kernel at cell [p]. *)
Definition init_kernel (P : Params) (p : IntVect) (f : Array4) : Array4 :=
  let uy := (A P * sin (2 * PI * IZR (ivx p) / IZR (nx P)))%R in
  for_loop ncomp (fun i f => set4 f p i (fequilibrium 1%R (0%R, uy, 0%R) i)) f.

(** Lines 104-109, the body of the output kernel of step 0 at cell [p]. *)
Definition hydro_kernel0 (f : Array4) (p : IntVect) (u : Array4) : Array4 :=
  let u := for_loop 3 (fun k u => set4 u p k 0%R) u in
  for_loop ncomp (fun i u =>
    for_loop 3 (fun k u => set4 u p k (u p k + f p i * IZR (c i k))%R) u) u.

(** Lines 141-144, the body of the output kernel of the later steps at cell
    [p]; [u(x,y,z)] without a component index is component 0. *)
Definition hydro_kernel (f : Array4) (p : IntVect) (u : Array4) : Array4 :=
  let u := set4 u p 0%nat 0%R in
  for_loop ncomp (fun i u => set4 u p 0%nat (u p 0%nat + f p i * IZR (c i 1%nat))%R) u.

(** [fold.FillBoundary(geom.periodicity())]: every ghost cell receives the
    value of its periodic image in the domain. *)
Definition periodic_image (P : Params) (p : IntVect) : IntVect :=
  (ivx p `mod` nx P, ivy p `mod` nx P, ivz p `mod` nx P).

Definition FillBoundary (P : Params) (mf : Array4) : Array4 :=
  fun p i =>
    if decide (in_box (grown P) p ∧ ¬ in_box (domain P) p)
    then mf (periodic_image P p) i
    else mf p i.

(** [MultiFab::Copy(dst, src, 0, 0, ncomp, 0)]: the [ncomp] components on
    the valid cells, no ghost cells. *)
Definition Copy (P : Params) (dst src : Array4) : Array4 :=
  fun p i =>
    if decide (in_box (domain P) p ∧ (i < ncomp)%nat) then src p i else dst p i.

(** Lines 122-129: [stream_collide] on every valid cell, with the engine
    [ParallelForRNG] hands to the kernel. *)
Definition stream_collide_all (P : Params) (fOld fNew : Array4) (e : RandomEngine)
  : Array4 * RandomEngine :=
  ParallelFor (domain P)
    (fun p s => stream_collide (tau P) (temperature P) p fOld s.1 s.2) (fNew, e).

(** Lines 100-115. *)
Definition initial_output (P : Params) (s : State) : State :=
  if decide (0 < plot_int P) then
    let step := 0 in
    let u := ParallelFor (grown P) (hydro_kernel0 (fold s)) (hydrovars s) in
    mkState (fold s) (fnew s) u (structFactMF s) (time s) (engine s)
      (out s ++ [WriteSingleLevelPlotfile (Concatenate "plt" step 5) u ["u"] (time s) step;
                 FortStructure (structFactMF s);
                 WritePlotFile 0 0%R "plt_SF"])
  else s.

(** Lines 120-149, the body of the time loop. *)
Definition timestep (P : Params) (step : Z) (s : State) : State :=
  let fold1 := FillBoundary P (fold s) in
  let '(fnew1, e1) := stream_collide_all P fold1 (fnew s) (engine s) in
  let fold2 := Copy P fold1 fnew1 in
  let out1 := out s ++ [FortStructure (structFactMF s); Print step] in
  let time1 := IZR step in
  if decide (0 < plot_int P ∧ Z.rem step (plot_int P) = 0) then
    let u := ParallelFor (grown P) (hydro_kernel fold2) (hydrovars s) in
    mkState fold2 fnew1 u (structFactMF s) time1 e1
      (out1 ++ [WriteSingleLevelPlotfile (Concatenate "plt" step 5) u ["u"] time1 step;
                WritePlotFile step time1 "plt_SF"])
  else
    mkState fold2 fnew1 (hydrovars s) (structFactMF s) time1 e1 out1.

(** [for (int step = first; step <= nsteps; ++step)], [n] iterations left. *)
Fixpoint time_loop (P : Params) (n : nat) (step : Z) (s : State) : State :=
  match n with
  | O => s
  | S n' => time_loop P n' (step + 1) (timestep P step s)
  end.

(** Lines 52-97: allocation, [structFactMF.setVal(0.)] and the shear wave. *)
Definition initialize (P : Params) (m : RawMemory) (e : RandomEngine) : State :=
  mkState (ParallelFor (grown P) (init_kernel P) (raw_fold m))
          (raw_fnew m) (raw_hydrovars m) setVal0 0%R e [].

Definition run (P : Params) (m : RawMemory) (e : RandomEngine) (n : nat) : State :=
  time_loop P n 1 (initial_output P (initialize P m e)).

Definition main_driver (pp : ParmParse) (m : RawMemory) (e : RandomEngine) : State :=
  let P := read_params pp in
  run P m e (Z.to_nat (nsteps P)).

End Driver.

(** ** The diagnostic of the specification

    The MomentExtractor as the specification words it, to be compared with
    what the output kernels of the driver store:
    density = Σ_i f_i, velocity = (Σ_i f_i c_i) / density. *)
Section MomentExtractor.
Context `{H : LbmHeader}.

Definition density (f : nat → R) : R := sum_n ncomp f.

Definition momentum (f : nat → R) (k : nat) : R :=
  sum_n ncomp (fun i => f i * IZR (c i k))%R.

Definition velocity (f : nat → R) (k : nat) : R :=
  (momentum f k / density f)%R.

(** Modelled from the spec: the guarantee of [fequilibrium], whose body is in
    [lbm.H]: "the result's zeroth moment equals ρ and first moment equals ρu
    exactly". *)
Definition equilibrium_guarantee : Prop :=
  ∀ (rho : R) (u : R * R * R),
    density (fequilibrium rho u) = rho ∧
    momentum (fequilibrium rho u) 0 = (rho * u.1.1)%R ∧
    momentum (fequilibrium rho u) 1 = (rho * u.1.2)%R ∧
    momentum (fequilibrium rho u) 2 = (rho * u.2)%R.

End MomentExtractor.

(** The steps the time loop announces with [Print()], in order. *)
Definition printed_steps (tr : list event) : list Z :=
  omap (fun ev => match ev with Print n => Some n | _ => None end) tr.

(** The fields handed to [FortStructure], in order. *)
Definition accumulated_fields (tr : list event) : list Array4 :=
  omap (fun ev => match ev with FortStructure v => Some v | _ => None end) tr.

(** The velocity snapshots written, in order, each with its step. *)
Definition snapshots (tr : list event) : list (Z * Array4) :=
  omap (fun ev => match ev with
                  | WriteSingleLevelPlotfile _ mf _ _ n => Some (n, mf)
                  | _ => None
                  end) tr.

(** The configuration errors of the specification: "non-positive grid size,
    τ outside the stable range [0.5, ∞), negative temperature". *)
Definition configuration_error (P : Params) : Prop :=
  nx P <= 0 ∨ (tau P < 1 / 2)%R ∨ (temperature P < 0)%R.

(** When the time step [step] writes output (line 139). *)
Definition output_step (P : Params) (step : Z) : Prop :=
  0 < plot_int P ∧ Z.rem step (plot_int P) = 0.

(** A parameter holds its default when its key is absent and the supplied
    value when it is present. *)
Definition default_or_supplied {V : Type} (tbl : gmap string V) (key : string)
    (dflt actual : V) : Prop :=
  (tbl !! key = None → actual = dflt) ∧ (∀ v, tbl !! key = Some v → actual = v).

Section Readings.
Context `{H : LbmHeader}.


(** The reading of the error policy that rejects at setup: a run with a
    configuration error never reaches a time step. *)
Definition rejects_configuration_errors : Prop :=
  ∀ (pp : ParmParse) (m : RawMemory) (e : RandomEngine),
    configuration_error (read_params pp) →
    printed_steps (out (main_driver pp m e)) = [].

End Readings.

(** ** The kernels of [lbm.H], modelled from the specification

    [lbm.H] is not part of the sources at hand.  The specification fixes the
    shape of its kernels (sections 4.2 to 4.4) and leaves the lattice, the
    moment basis, the relaxation rates and the noise amplitude open; they are
    the fields of [MrtModel]. *)
Record MrtModel : Type := mkMrt {
  Q : nat;
  cvec : nat → nat → Z;
  equilibrium : R → R * R * R → nat → R;
  Mmat : nat → nat → R;
  Minv : nat → nat → R;
  rate : R → nat → R;
  noise_amplitude : R → R → nat → R;
  Engine : Type;
  RandomNormal : Engine → nat → R;
  advance : Engine → Engine;
  tau0 : R;
  temperature0 : R
}.

Section SpecModel.
Context (L : MrtModel).

(** Modelled from the spec: the moments of a population vector (section 4.5,
    MomentExtractor of [lbm.H]). *)
Definition mdensity (f : nat → R) : R := sum_n (Q L) f.

Definition mmomentum (f : nat → R) (k : nat) : R :=
  sum_n (Q L) (fun i => f i * IZR (cvec L i k))%R.

Definition moments (f : nat → R) : R * (R * R * R) :=
  let rho := mdensity f in
  (rho, (mmomentum f 0 / rho, mmomentum f 1 / rho, mmomentum f 2 / rho))%R.

(** Modelled from the spec: the change of basis of step (c) and its inverse
    of step (e) of the CollisionOperator of [lbm.H]. *)
Definition to_moments (g : nat → R) : nat → R :=
  fun a => sum_n (Q L) (fun i => Mmat L a i * g i)%R.

Definition from_moments (m : nat → R) : nat → R :=
  fun i => sum_n (Q L) (fun a => Minv L i a * m a)%R.

(** Moments 0 to 3 are the conserved ones: density and the three components
    of momentum. *)
Definition conserved (a : nat) : bool := (a <? 4)%nat.

(** Modelled from the spec: step (d), "if T > 0, add a stochastic correction
    per non-conserved moment", with the amplitude "scaled by T and the
    relaxation rate". *)
Definition thermal_noise (tau T : R) (e : Engine L) : nat → R :=
  fun a => if conserved a then 0%R
           else (noise_amplitude L tau T a * RandomNormal L e a)%R.

Definition correction (tau T : R) (e : Engine L) : nat → R :=
  if Rlt_dec 0 T then thermal_noise tau T e else fun _ => 0%R.

(** Modelled from the spec: steps (a), (b), (c) and (e) of the
    CollisionOperator of [lbm.H], for a given correction of step (d). *)
Definition relax (f : nat → R) (tau : R) (xi : nat → R) : nat → R :=
  let '(rho, u) := moments f in
  let feq := equilibrium L rho u in
  let m := to_moments (fun i => f i - feq i)%R in
  let m' := fun a => (m a - rate L tau a * m a + xi a)%R in
  fun i => (feq i + from_moments m' i)%R.

(** Modelled from the spec: [collide(old PopulationVector, τ, T, rng-state)]
    of [lbm.H]. *)
Definition collide (f : nat → R) (tau T : R) (e : Engine L) : nat → R :=
  relax f tau (correction tau T e).

(** Modelled from the spec: the StreamingStep of [lbm.H], "each cell's
    direction-i population is written into the neighbor cell at (cell
    coordinates + c_i), with coordinates wrapped modulo the grid size". *)
Definition neighbor (p : IntVect) (i : nat) : IntVect :=
  (ivx p + cvec L i 0, ivy p + cvec L i 1, ivz p + cvec L i 2).

Definition wrap (N : Z) (p : IntVect) : IntVect :=
  (ivx p `mod` N, ivy p `mod` N, ivz p `mod` N).

Definition cube (N : Z) : Box := mkBox (0, 0, 0) (N - 1, N - 1, N - 1).

(** The cell whose direction-[i] population arrives at [q]. *)
Definition upstream (N : Z) (q : IntVect) (i : nat) : IntVect :=
  wrap N (ivx q - cvec L i 0, ivy q - cvec L i 1, ivz q - cvec L i 2).

Definition stream_cell (N : Z) (post : nat → R) (p : IntVect) (fNew : Array4) : Array4 :=
  for_loop (Q L) (fun i a => set4 a (wrap N (neighbor p i)) i (post i)) fNew.

Definition stream (N : Z) (post fNew : Array4) : Array4 :=
  ParallelFor (cube N) (fun p a => stream_cell N (post p) p a) fNew.

(** Modelled from the spec: [stream_collide] of [lbm.H], the
    "CollisionOperator + StreamingStep fused per cell". *)
Definition spec_stream_collide (N : Z) (tau T : R) (p : IntVect)
    (fOld fNew : Array4) (e : Engine L) : Array4 * Engine L :=
  (stream_cell N (collide (fOld p) tau T e) p fNew, advance L e).

(** Sum of a list of reals, and the totals over the periodic grid. *)
Definition sum_list (l : list R) : R := foldr Rplus 0%R l.

Definition total_mass (N : Z) (a : Array4) : R :=
  sum_list ((fun p => mdensity (a p)) <$> box_cells (cube N)).

Definition total_momentum (N : Z) (a : Array4) (k : nat) : R :=
  sum_list ((fun p => mmomentum (a p) k) <$> box_cells (cube N)).

(** Modelled from the spec: what section 4.3 requires of the moment basis
    and of the rates: the first four moments are density and momentum, the
    back transformation inverts the forward one, and "conserved moments have
    rate 0". *)
Record MrtContract : Prop := mkContract {
  enough_directions : (4 ≤ Q L)%nat;
  density_row : ∀ i, (i < Q L)%nat → Mmat L 0 i = 1%R;
  momentum_rows : ∀ k i, (k < 3)%nat → (i < Q L)%nat →
    Mmat L (S k) i = IZR (cvec L i k);
  back_and_forth : ∀ a b, (a < Q L)%nat → (b < Q L)%nat →
    sum_n (Q L) (fun i => Mmat L a i * Minv L i b)%R = if decide (a = b) then 1%R else 0%R;
  conserved_rate : ∀ tau a, (a < 4)%nat → rate L tau a = 0%R
}.

(** The header the driver sees when [lbm.H] is the model [L] on a periodic
    grid of [N] cells per side. *)
Definition spec_header (N : Z) : LbmHeader :=
  {| RandomEngine := Engine L;
     ncomp := Q L;
     c := cvec L;
     tau_init := tau0 L;
     temperature_init := temperature0 L;
     fequilibrium := equilibrium L;
     stream_collide := spec_stream_collide N |}.

End SpecModel.

(** ** A small instance: the seven-velocity lattice

    The rest direction and the six axis directions, with weights 1/4 and 1/8
    (squared sound speed 1/4).  It meets the LatticeStencil contract of the
    specification (weights sum to one, zero first moment, closed under
    negation) and serves as the concrete input of the examples below. *)
Module D3Q7.

Definition directions : list IntVect :=
  [(0, 0, 0); (1, 0, 0); (-1, 0, 0); (0, 1, 0); (0, -1, 0); (0, 0, 1); (0, 0, -1)].

Definition dir (i k : nat) : Z :=
  let d := nth i directions (0, 0, 0) in
  match k with
  | O => ivx d
  | S O => ivy d
  | _ => ivz d
  end.

Definition weight (i : nat) : R :=
  match i with
  | O => (1 / 4)%R
  | _ => (1 / 8)%R
  end.

Definition cu (i : nat) (u : R * R * R) : R :=
  (IZR (dir i 0) * u.1.1 + IZR (dir i 1) * u.1.2 + IZR (dir i 2) * u.2)%R.

(** Second-order expansion in [u], weighted by [weight i] and scaled by
    [rho]. *)
Definition feq (rho : R) (u : R * R * R) (i : nat) : R :=
  (rho * weight i *
   (1 + 4 * cu i u + 8 * (cu i u * cu i u)
      - 2 * (u.1.1 * u.1.1 + u.1.2 * u.1.2 + u.2 * u.2)))%R.

(** Moment basis: density, momentum, and the three diagonal second moments. *)
Definition M (a i : nat) : R :=
  match a with
  | 0 => 1%R
  | 1 | 2 | 3 => IZR (dir i (a - 1))
  | _ => (IZR (dir i (a - 4)) * IZR (dir i (a - 4)))%R
  end%nat.

Definition Mi_rows : list (list R) :=
  [ [1; 0; 0; 0; -1; -1; -1];
    [0; 1/2; 0; 0; 1/2; 0; 0];
    [0; -1/2; 0; 0; 1/2; 0; 0];
    [0; 0; 1/2; 0; 0; 1/2; 0];
    [0; 0; -1/2; 0; 0; 1/2; 0];
    [0; 0; 0; 1/2; 0; 0; 1/2];
    [0; 0; 0; -1/2; 0; 0; 1/2] ]%R.

Definition Mi (i a : nat) : R := nth a (nth i Mi_rows []) 0%R.

Definition omega (tau : R) (a : nat) : R :=
  if (a <? 4)%nat then 0%R else (1 / tau)%R.

Definition amplitude (tau T : R) (a : nat) : R :=
  sqrt (T * omega tau a * (2 - omega tau a)).

Definition model : MrtModel :=
  {| Q := 7;
     cvec := dir;
     equilibrium := feq;
     Mmat := M;
     Minv := Mi;
     rate := omega;
     noise_amplitude := amplitude;
     Engine := nat → R;
     RandomNormal := fun e a => e a;
     advance := fun e n => e (n + 7)%nat;
     tau0 := 1%R;
     temperature0 := 0%R |}.

(** The header of this model on the default grid. *)
Definition header : LbmHeader := spec_header model 16.

End D3Q7.

(** ** Concrete inputs *)

(** An inputs file without any key. *)
Definition no_inputs : ParmParse := mkPP ∅ ∅.

(** An inputs file that asks for twenty steps and an output at every step. *)
Definition some_inputs : ParmParse :=
  mkPP (<["nsteps" := 20]> (<["plot_int" := 1]> ∅)) ∅.

(** An inputs file with a relaxation time below 1/2 and a negative
    temperature. *)
Definition bad_inputs : ParmParse :=
  mkPP (<["nsteps" := 3]> ∅) (<["tau" := 0.1%R]> (<["temperature" := (-1)%R]> ∅)).

Definition zero_memory : RawMemory := mkRaw setVal0 setVal0 setVal0.

(** A random engine whose every draw is zero. *)
Definition quiet_engine : nat → R := fun _ => 0%R.

(** A population field with, in every cell, two units in the rest direction
    and one in the first direction. *)
Definition heavy_field : Array4 :=
  fun _ i => match i with
             | 0 => 2%R
             | 1 => 1%R
             | _ => 0%R
             end%nat.

(** ** The set-up of the structure factor (lines 60-84) *)

(** [int structVars = AMREX_SPACEDIM]. *)
Definition structVars : nat := 3.

(** Lines 71-72: [name = "vel"; name += (120+d)]; the integer is appended as
    the character of that code. *)
Definition var_name (d : nat) : string :=
  "vel" +:+ String (ascii_of_nat (120 + d)) EmptyString.

(** Lines 63-74: [var_names.resize(structVars)], then one assignment
    [var_names[cnt++] = name] per dimension. *)
Definition var_names : list string :=
  (for_loop structVars
     (fun d (st : nat * list string) => (S st.1, <[st.1 := var_name d]> st.2))
     (O, replicate structVars EmptyString)).2.

(** Lines 79-82: one scaling factor per pair of variables, all set to one. *)
Definition var_scaling : list R :=
  let size := (structVars * (structVars + 1) / 2)%nat in
  for_loop size (fun d v => <[d := 1%R]> v) (replicate size 0%R).

(** ** The shape of the output trace *)

(** An event without the fields and the file name it carries. *)
Inductive kind : Type :=
| KPlot (step : Z) (time : R)
| KFort
| KFlush (step : Z) (time : R)
| KPrint (step : Z).

Definition kind_of (ev : event) : kind :=
  match ev with
  | WriteSingleLevelPlotfile _ _ _ t n => KPlot n t
  | FortStructure _ => KFort
  | WritePlotFile n t _ => KFlush n t
  | Print n => KPrint n
  end.

(** What the block of lines 100-115 and one turn of the time loop emit. *)
Definition initial_kinds (P : Params) : list kind :=
  if decide (0 < plot_int P) then [KPlot 0 0%R; KFort; KFlush 0 0%R] else [].

Definition step_kinds (P : Params) (n : Z) : list kind :=
  [KFort; KPrint n] ++
  (if decide (output_step P n) then [KPlot n (IZR n); KFlush n (IZR n)] else []).

(** For every [WritePlotFile] of a trace, its step and the number of
    [FortStructure] calls made before it, [count] of them before the trace. *)
Fixpoint flush_samples (count : nat) (tr : list event) : list (Z * nat) :=
  match tr with
  | [] => []
  | FortStructure _ :: tr' => flush_samples (S count) tr'
  | WritePlotFile n _ _ :: tr' => (n, count) :: flush_samples count tr'
  | _ :: tr' => flush_samples count tr'
  end.

(** The parameters of a run on [some_inputs]: the defaults, twenty steps and
    an output at every step. *)
Definition every_step_params : Params := mkParams 16 20 1 1%R 0%R 0.001%R.

(** The shear wave of the default inputs at the cells of abscissa [x]. *)
Definition default_wave (x : Z) : R := (0.001 * sin (2 * PI * IZR x / 16))%R.

(** An inputs file that switches the output off. *)
Definition silent_inputs : ParmParse :=
  mkPP (<["plot_int" := 0]> (<["nsteps" := 4]> ∅)) ∅.

(** An inputs file with a zero amplitude of the shear wave. *)
Definition still_inputs : ParmParse := mkPP ∅ (<["A" := 0%R]> ∅).

(** * Properties *)

(** The name of the plot file of step 10. *)
Example Concatenate_plt10 : Concatenate "plt" 10 5 = "plt00010"%string.
Proof. reflexivity. Qed.

(** The names and the scaling factors handed to the structure factor. *)
Example var_names_are_velx_vely_velz : var_names = ["velx"; "vely"; "velz"]%string.
Proof. reflexivity. Qed.

Example var_scaling_is_six_ones : var_scaling = replicate 6 1%R.
Proof. reflexivity. Qed.

(** ** Arrays and loops *)

Lemma set4_same (a : Array4) p n v : set4 a p n v p n = v.
Proof. unfold set4. by rewrite decide_True. Qed.

Lemma set4_other (a : Array4) p n v q m : ¬ (q = p ∧ m = n) → set4 a p n v q m = a q m.
Proof. intros Hne. unfold set4. by rewrite decide_False. Qed.

Lemma for_loop_S {S : Type} (n : nat) (body : nat → S → S) (s : S) :
  for_loop (Datatypes.S n) body s = body n (for_loop n body s).
Proof. unfold for_loop. by rewrite seq_S, foldl_app. Qed.

Lemma elem_of_zrange lo hi x : x ∈ zrange lo hi ↔ lo <= x <= hi.
Proof. unfold zrange. rewrite elem_of_seqZ. lia. Qed.

Lemma elem_of_box_cells b p : p ∈ box_cells b ↔ in_box b p.
Proof.
  destruct p as [[x y] z]. unfold box_cells, in_box, ivx, ivy, ivz. simpl.
  repeat setoid_rewrite list_elem_of_bind.
  setoid_rewrite list_elem_of_singleton. setoid_rewrite elem_of_zrange.
  split.
  - intros (z' & (y' & (x' & Heq & Hx) & Hy) & Hz). simplify_eq. lia.
  - intros (Hx & Hy & Hz). exists z. split; [|done].
    exists y. split; [|done]. by exists x.
Qed.

Lemma NoDup_box_cells b : NoDup (box_cells b).
Proof.
  unfold box_cells, zrange.
  apply NoDup_bind; [| |apply NoDup_seqZ].
  - intros z1 z2 p _ _ H1 H2.
    apply list_elem_of_bind in H1 as (y1 & (x1 & H1 & _)%list_elem_of_bind & _).
    apply list_elem_of_bind in H2 as (y2 & (x2 & H2 & _)%list_elem_of_bind & _).
    apply list_elem_of_singleton in H1, H2. by simplify_eq.
  - intros z _. apply NoDup_bind; [| |apply NoDup_seqZ].
    + intros y1 y2 p _ _ (x1 & H1 & _)%list_elem_of_bind (x2 & H2 & _)%list_elem_of_bind.
      apply list_elem_of_singleton in H1, H2. by simplify_eq.
    + intros y _. apply NoDup_bind; [| |apply NoDup_seqZ].
      * intros x1 x2 p _ _ H1%list_elem_of_singleton H2%list_elem_of_singleton.
        by simplify_eq.
      * intros x _. apply NoDup_singleton.
Qed.

(** Case analysis on every [decide] of the goal, closing the contradictory
    cases by linear arithmetic. *)
Ltac decide_cases :=
  repeat case_decide; destruct_and?; simplify_eq; try done;
  try (exfalso; intuition lia).

(** A kernel that, at cell [p], overwrites the components selected by [W]
    with values that do not depend on the array: the pass over a box does the
    same at every cell of the box and nothing elsewhere. *)
Lemma ParallelFor_write (b : Box) (K : IntVect → Array4 → Array4)
    (W : nat → Prop) (val : IntVect → nat → R) :
  (∀ n, Decision (W n)) →
  (∀ p u q n, (q = p ∧ W n → K p u q n = val p n) ∧
              (¬ (q = p ∧ W n) → K p u q n = u q n)) →
  ∀ u q n, (in_box b q ∧ W n → ParallelFor b K u q n = val q n) ∧
           (¬ (in_box b q ∧ W n) → ParallelFor b K u q n = u q n).
Proof.
  intros HW HK u q n. unfold ParallelFor.
  setoid_rewrite <- elem_of_box_cells.
  generalize (box_cells b) as l. intros l. revert u.
  induction l as [|p l IH]; intros u; cbn [foldl].
  - split; [|done]. intros [Hin _]. by apply elem_of_nil in Hin.
  - destruct (IH (K p u)) as [IH1 IH2]. destruct (HK p u q n) as [HK1 HK2].
    destruct (decide (q ∈ l ∧ W n)) as [Hl|Hl].
    + split; [auto|]. intros Hn. exfalso. apply Hn.
      destruct Hl as [Hin Hw]. split; [by right|done].
    + rewrite IH2 by done. split.
      * intros [Hin Hw]. apply elem_of_cons in Hin as [->|Hin]; [auto|tauto].
      * intros Hn. apply HK2. intros [-> Hw]. apply Hn. split; [by left|done].
Qed.

(** The same statement for kernels specified by a decidable test. *)
Lemma decide_both {P : Prop} `{!Decision P} (x v w : R) :
  x = (if decide P then v else w) → (P → x = v) ∧ (¬ P → x = w).
Proof. intros ->. split; intros; [by rewrite decide_True|by rewrite decide_False]. Qed.

Lemma both_decide {P : Prop} `{!Decision P} (x v w : R) :
  (P → x = v) ∧ (¬ P → x = w) → x = (if decide P then v else w).
Proof. intros [H1 H2]. case_decide; auto. Qed.

Lemma for_loop_write (m : nat) (p : IntVect) (g : nat → R) (u : Array4) q n :
  for_loop m (fun i u => set4 u p i (g i)) u q n
  = if decide (q = p ∧ (n < m)%nat) then g n else u q n.
Proof.
  induction m as [|m IH].
  - unfold for_loop. simpl. rewrite decide_False; [done|]. lia.
  - rewrite for_loop_S. unfold set4 at 1. rewrite IH. clear IH.
    decide_cases.
Qed.

Lemma accumulate3 (p : IntVect) (h : nat → R) (u : Array4) q n :
  for_loop 3 (fun k u => set4 u p k (u p k + h k)%R) u q n
  = if decide (q = p ∧ (n < 3)%nat) then (u p n + h n)%R else u q n.
Proof.
  unfold for_loop. simpl. unfold set4. decide_cases.
Qed.

Section DriverKernels.
Context `{H : LbmHeader}.

Lemma init_kernel_spec P p f q n :
  init_kernel P p f q n
  = if decide (q = p ∧ (n < ncomp)%nat)
    then fequilibrium 1%R (0%R, (A P * sin (2 * PI * IZR (ivx p) / IZR (nx P)))%R, 0%R) n
    else f q n.
Proof. unfold init_kernel. apply for_loop_write. Qed.

Lemma hydro_kernel0_spec f p u q n :
  hydro_kernel0 f p u q n
  = if decide (q = p ∧ (n < 3)%nat) then momentum (f p) n else u q n.
Proof.
  unfold hydro_kernel0, momentum.
  destruct (decide (q = p ∧ (n < 3)%nat)) as [[-> Hn]|Hne].
  - induction ncomp as [|m IH].
    + unfold for_loop at 1. simpl. rewrite for_loop_write. by rewrite decide_True.
    + rewrite for_loop_S, accumulate3, decide_True by done. simpl. by rewrite IH.
  - induction ncomp as [|m IH].
    + unfold for_loop at 1. simpl. rewrite for_loop_write. by rewrite decide_False.
    + rewrite for_loop_S, accumulate3, decide_False by done. apply IH.
Qed.

Lemma hydro_kernel_spec f p u q n :
  hydro_kernel f p u q n
  = if decide (q = p ∧ n = 0%nat) then momentum (f p) 1 else u q n.
Proof.
  unfold hydro_kernel, momentum.
  destruct (decide (q = p ∧ n = 0%nat)) as [[-> ->]|Hne].
  - induction ncomp as [|m IH].
    + unfold for_loop. simpl. apply set4_same.
    + rewrite for_loop_S, set4_same. simpl. by rewrite IH.
  - induction ncomp as [|m IH].
    + unfold for_loop. simpl. by apply set4_other.
    + rewrite for_loop_S, set4_other by done. apply IH.
Qed.

End DriverKernels.

(** ** Finite sums *)

Lemma sum_n_ext (n : nat) (g h : nat → R) :
  (∀ i, (i < n)%nat → g i = h i) → sum_n n g = sum_n n h.
Proof.
  induction n as [|n IH]; intros Hgh; simpl; [done|].
  rewrite IH, Hgh by (intros; auto with lia). done.
Qed.

Lemma sum_n_plus (n : nat) (g h : nat → R) :
  sum_n n (fun i => g i + h i)%R = (sum_n n g + sum_n n h)%R.
Proof. induction n as [|n IH]; simpl; [lra|]. rewrite IH. lra. Qed.

Lemma sum_n_minus (n : nat) (g h : nat → R) :
  sum_n n (fun i => g i - h i)%R = (sum_n n g - sum_n n h)%R.
Proof. induction n as [|n IH]; simpl; [lra|]. rewrite IH. lra. Qed.

Lemma sum_n_scale (n : nat) (a : R) (g : nat → R) :
  sum_n n (fun i => a * g i)%R = (a * sum_n n g)%R.
Proof. induction n as [|n IH]; simpl; [lra|]. rewrite IH. lra. Qed.

Lemma sum_n_zero (n : nat) : sum_n n (fun _ => 0%R) = 0%R.
Proof. induction n as [|n IH]; simpl; [done|]. rewrite IH. lra. Qed.

Lemma sum_n_swap (n m : nat) (g : nat → nat → R) :
  sum_n n (fun i => sum_n m (fun j => g i j))
  = sum_n m (fun j => sum_n n (fun i => g i j)).
Proof.
  induction n as [|n IH]; simpl.
  - by rewrite sum_n_zero.
  - by rewrite IH, sum_n_plus.
Qed.

(** Summing against the indicator of [b] picks the term of index [b]. *)
Lemma sum_n_pick (n b : nat) (g : nat → R) :
  (b < n)%nat →
  sum_n n (fun a => (if decide (b = a) then 1 else 0) * g a)%R = g b.
Proof.
  induction n as [|n IH]; intros Hb; [lia|]. simpl.
  destruct (decide (b = n)) as [->|Hne].
  - rewrite (sum_n_ext n _ (fun _ => 0%R)), sum_n_zero; [lra|].
    intros i Hi. rewrite decide_False by lia. lra.
  - rewrite IH by lia. lra.
Qed.

(** ** The phases of the driver *)

Section DriverPhases.
Context `{H : LbmHeader}.

Lemma initialize_fold P m e q n :
  fold (initialize P m e) q n
  = if decide (in_box (grown P) q ∧ (n < ncomp)%nat)
    then fequilibrium 1%R (0%R, (A P * sin (2 * PI * IZR (ivx q) / IZR (nx P)))%R, 0%R) n
    else raw_fold m q n.
Proof.
  unfold initialize. simpl. apply both_decide.
  apply (ParallelFor_write (grown P) (init_kernel P) (fun n => (n < ncomp)%nat)
           (fun p n => fequilibrium 1%R
              (0%R, (A P * sin (2 * PI * IZR (ivx p) / IZR (nx P)))%R, 0%R) n));
    [apply _|].
  intros. apply decide_both, init_kernel_spec.
Qed.

Lemma initial_output_fold P s : fold (initial_output P s) = fold s.
Proof. unfold initial_output. by case_decide. Qed.

Lemma initial_output_structFactMF P s :
  structFactMF (initial_output P s) = structFactMF s.
Proof. unfold initial_output. by case_decide. Qed.

Lemma initial_output_hydrovars P s q n :
  hydrovars (initial_output P s) q n
  = if decide (0 < plot_int P ∧ in_box (grown P) q ∧ (n < 3)%nat)
    then momentum (fold s q) n
    else hydrovars s q n.
Proof.
  unfold initial_output. destruct (decide (0 < plot_int P)) as [Hp|Hp]; simpl.
  - destruct (ParallelFor_write (grown P) (hydro_kernel0 (fold s))
                 (fun n => (n < 3)%nat) (fun p n => momentum (fold s p) n) _
                 (fun p u q n => decide_both _ _ _ (hydro_kernel0_spec (fold s) p u q n))
                 (hydrovars s) q n) as [Hin Hout].
    case_decide; [apply Hin|apply Hout]; tauto.
  - rewrite decide_False; [done|]. tauto.
Qed.

Lemma initial_output_out P s :
  out (initial_output P s)
  = out s ++
    (if decide (0 < plot_int P)
     then [WriteSingleLevelPlotfile (Concatenate "plt" 0 5)
             (hydrovars (initial_output P s)) ["u"] (time s) 0;
           FortStructure (structFactMF s);
           WritePlotFile 0 0%R "plt_SF"]
     else []).
Proof.
  unfold initial_output. case_decide; simpl; [done|]. by rewrite app_nil_r.
Qed.

Lemma timestep_structFactMF P step s :
  structFactMF (timestep P step s) = structFactMF s.
Proof.
  unfold timestep. destruct (stream_collide_all _ _ _ _). by case_decide.
Qed.

Lemma timestep_fold P step s :
  fold (timestep P step s)
  = Copy P (FillBoundary P (fold s))
      (stream_collide_all P (FillBoundary P (fold s)) (fnew s) (engine s)).1.
Proof.
  unfold timestep. destruct (stream_collide_all _ _ _ _). by case_decide.
Qed.

Lemma timestep_hydrovars P step s q n :
  hydrovars (timestep P step s) q n
  = if decide (output_step P step ∧ in_box (grown P) q ∧ n = 0%nat)
    then momentum (fold (timestep P step s) q) 1
    else hydrovars s q n.
Proof.
  rewrite timestep_fold. unfold timestep, output_step.
  destruct (stream_collide_all _ _ _ _) as [fnew1 e1]. simpl.
  destruct (decide (0 < plot_int P ∧ Z.rem step (plot_int P) = 0)) as [Ho|Ho]; simpl.
  - destruct (ParallelFor_write (grown P)
                 (hydro_kernel (Copy P (FillBoundary P (fold s)) fnew1))
                 (fun n => n = 0%nat)
                 (fun p n => momentum (Copy P (FillBoundary P (fold s)) fnew1 p) 1) _
                 (fun p u q n => decide_both _ _ _ (hydro_kernel_spec _ p u q n))
                 (hydrovars s) q n) as [Hin Hout].
    case_decide; [apply Hin|apply Hout]; tauto.
  - rewrite decide_False; [done|]. tauto.
Qed.

Lemma timestep_out P step s :
  out (timestep P step s)
  = out s ++ [FortStructure (structFactMF s); Print step] ++
    (if decide (output_step P step)
     then [WriteSingleLevelPlotfile (Concatenate "plt" step 5)
             (hydrovars (timestep P step s)) ["u"] (IZR step) step;
           WritePlotFile step (IZR step) "plt_SF"]
     else []).
Proof.
  unfold timestep, output_step. destruct (stream_collide_all _ _ _ _).
  case_decide; simpl; by rewrite <- ?app_assoc.
Qed.

Lemma time_loop_S P n step s :
  time_loop P (S n) step s = timestep P (step + Z.of_nat n) (time_loop P n step s).
Proof.
  revert step s. induction n as [|n IH]; intros step s.
  - simpl. by rewrite Z.add_0_r.
  - change (time_loop P (S (S n)) step s)
      with (time_loop P (S n) (step + 1) (timestep P step s)).
    rewrite IH. replace (step + 1 + Z.of_nat n) with (step + Z.of_nat (S n)) by lia.
    done.
Qed.

Lemma run_S P m e n :
  run P m e (S n) = timestep P (Z.of_nat (S n)) (run P m e n).
Proof. unfold run. rewrite time_loop_S. f_equal. lia. Qed.

End DriverPhases.

(** ** The run as a whole *)

Section DriverRun.
Context `{H : LbmHeader}.

Lemma accumulated_fields_app tr1 tr2 :
  accumulated_fields (tr1 ++ tr2) = accumulated_fields tr1 ++ accumulated_fields tr2.
Proof. apply omap_app. Qed.

Lemma printed_steps_app tr1 tr2 :
  printed_steps (tr1 ++ tr2) = printed_steps tr1 ++ printed_steps tr2.
Proof. apply omap_app. Qed.

Lemma snapshots_app tr1 tr2 : snapshots (tr1 ++ tr2) = snapshots tr1 ++ snapshots tr2.
Proof. apply omap_app. Qed.

Lemma run_structFactMF P m e n : structFactMF (run P m e n) = setVal0.
Proof.
  induction n as [|n IH].
  - unfold run. simpl. by rewrite initial_output_structFactMF.
  - by rewrite run_S, timestep_structFactMF.
Qed.

Lemma run_printed_steps P m e n :
  printed_steps (out (run P m e n)) = seqZ 1 (Z.of_nat n).
Proof.
  induction n as [|n IH].
  - unfold run. simpl. rewrite initial_output_out. simpl. by case_decide.
  - rewrite run_S, timestep_out, !printed_steps_app, IH, seqZ_S.
    f_equal. simpl. case_decide; simpl; f_equal; lia.
Qed.

Lemma run_snapshots_S P m e n :
  snapshots (out (run P m e (S n)))
  = snapshots (out (run P m e n)) ++
    (if decide (output_step P (Z.of_nat (S n)))
     then [(Z.of_nat (S n), hydrovars (run P m e (S n)))] else []).
Proof.
  rewrite run_S at 1. rewrite timestep_out, !snapshots_app. f_equal.
  rewrite <- run_S. by case_decide.
Qed.

(** Components 1 and 2 of the hydrodynamic field are never written after the
    output of step 0. *)
Lemma run_hydrovars_frozen P m e n q k :
  k ≠ 0%nat → hydrovars (run P m e n) q k = hydrovars (run P m e 0) q k.
Proof.
  intros Hk. induction n as [|n IH]; [done|].
  rewrite run_S, timestep_hydrovars, decide_False; [done|]. tauto.
Qed.

(** What the output of step 0 stores in a cell. *)
Lemma initial_snapshot_values P m e q (k : nat) :
  0 < plot_int P → in_box (grown P) q → (k < 3)%nat →
  hydrovars (run P m e 0) q k = momentum (fold (run P m e 0) q) k.
Proof.
  intros Hp Hq Hk. unfold run at 1. simpl.
  rewrite initial_output_hydrovars, decide_True by done.
  unfold run. simpl. by rewrite initial_output_fold.
Qed.

End DriverRun.

(** ** The structure factor is fed a field that is never filled *)

(** C1.  The claim is that, at every step, [FortStructure] is applied to the
    velocity field of that step.  In the driver the field handed over is
    [structFactMF], which is set to zero once and never written again: in
    every run, each field [FortStructure] receives is the zero field. *)
Theorem FortStructure_receives_zero_field `{H : LbmHeader}
    (pp : ParmParse) (m : RawMemory) (e : RandomEngine) :
  Forall (fun v => v = setVal0) (accumulated_fields (out (main_driver pp m e))).
Proof.
  unfold main_driver. generalize (Z.to_nat (nsteps (read_params pp))) as n.
  generalize (read_params pp) as P. intros P n.
  induction n as [|n IH].
  - unfold run. simpl. rewrite initial_output_out. simpl.
    case_decide; simpl; repeat constructor.
  - rewrite run_S, timestep_out, !accumulated_fields_app.
    rewrite run_structFactMF. apply Forall_app. split; [done|].
    case_decide; simpl; repeat constructor.
Qed.

(** ** Defaults of the input parameters *)

(** C9.  Each of the keys [nx], [nsteps], [plot_int] and [A] that is absent
    from the inputs leaves its parameter at the built-in default (16, 100, 10
    and 0.001), and a supplied value replaces the default. *)
Theorem read_params_default_or_supplied `{H : LbmHeader} (pp : ParmParse) :
  default_or_supplied (pp_int pp) "nx" 16 (nx (read_params pp)) ∧
  default_or_supplied (pp_int pp) "nsteps" 100 (nsteps (read_params pp)) ∧
  default_or_supplied (pp_int pp) "plot_int" 10 (plot_int (read_params pp)) ∧
  default_or_supplied (pp_real pp) "A" 0.001%R (A (read_params pp)).
Proof.
  unfold default_or_supplied, read_params, query. simpl.
  split_and!; intros; simplify_option_eq; done.
Qed.

(** With [nsteps] and [plot_int] supplied and the other keys absent. *)
Lemma read_params_default_or_supplied_witness :
  nx (read_params (H := D3Q7.header) some_inputs) = 16 ∧
  nsteps (read_params (H := D3Q7.header) some_inputs) = 20 ∧
  plot_int (read_params (H := D3Q7.header) some_inputs) = 1 ∧
  A (read_params (H := D3Q7.header) some_inputs) = 0.001%R.
Proof.
  destruct (read_params_default_or_supplied (H := D3Q7.header) some_inputs)
    as ((Hnx & _) & (_ & Hns) & (_ & Hpi) & (HA & _)).
  split_and!; [apply Hnx|apply Hns|apply Hpi|apply HA]; reflexivity.
Defined.

(** ** The output of the later steps *)

(** C10.  At an output step of the time loop, the output pass writes only
    component 0 of each cell of the hydrodynamic field, storing there the sum
    of [f_i * c[i][1]] over the directions (the y-momentum of the new
    population field); components 1 and 2 keep their previous values. *)
Theorem later_output_writes_component_0_only `{H : LbmHeader}
    (P : Params) (step : Z) (s : State) (q : IntVect) :
  output_step P step →
  (in_box (grown P) q →
   hydrovars (timestep P step s) q 0%nat
   = sum_n ncomp (fun i => fold (timestep P step s) q i * IZR (c i 1%nat))%R) ∧
  hydrovars (timestep P step s) q 1%nat = hydrovars s q 1%nat ∧
  hydrovars (timestep P step s) q 2%nat = hydrovars s q 2%nat ∧
  snapshots (out (timestep P step s))
  = snapshots (out s) ++ [(step, hydrovars (timestep P step s))].
Proof.
  intros Ho. split_and!.
  - intros Hq. rewrite timestep_hydrovars, decide_True; done.
  - rewrite timestep_hydrovars, decide_False; [done|]. intros (_ & _ & ?). lia.
  - rewrite timestep_hydrovars, decide_False; [done|]. intros (_ & _ & ?). lia.
  - rewrite timestep_out, !snapshots_app, decide_True by done. done.
Qed.

(** The first time step of a run that writes output at every step. *)
Lemma later_output_writes_component_0_only_witness :
  let P := read_params (H := D3Q7.header) some_inputs in
  let s := run (H := D3Q7.header) P zero_memory quiet_engine 0 in
  output_step P 1 ∧
  hydrovars (timestep P 1 s) (0, 0, 0) 1%nat = hydrovars s (0, 0, 0) 1%nat ∧
  hydrovars (timestep P 1 s) (0, 0, 0) 2%nat = hydrovars s (0, 0, 0) 2%nat.
Proof.
  intros P s.
  assert (Ho : output_step P 1) by (split; reflexivity).
  split; [exact Ho|].
  destruct (later_output_writes_component_0_only P 1 s (0, 0, 0) Ho)
    as (_ & H1 & H2 & _).
  split; [exact H1|exact H2].
Defined.

(** C3.  The claim is that every output step recomputes all three components
    of the velocity.  In the driver only the output of step 0 does: in every
    snapshot the run writes, at whatever step, components 1 and 2 of a cell
    are the first moments of the population field of step 0, not of the
    population field of that step. *)
Theorem later_snapshots_keep_step0_components `{H : LbmHeader}
    (pp : ParmParse) (m : RawMemory) (e : RandomEngine) :
  let P := read_params pp in
  Forall (fun sn : Z * Array4 =>
            ∀ q, in_box (grown P) q →
                 sn.2 q 1%nat = momentum (fold (run P m e 0) q) 1 ∧
                 sn.2 q 2%nat = momentum (fold (run P m e 0) q) 2)
         (snapshots (out (main_driver pp m e))).
Proof.
  intros P. unfold main_driver. fold P.
  generalize (Z.to_nat (nsteps P)) as n. intros n.
  induction n as [|n IH].
  - unfold run at 3. simpl. rewrite initial_output_out, snapshots_app.
    apply Forall_app. split; [by constructor|].
    case_decide as Hp; simpl; [|constructor].
    apply Forall_singleton. intros q Hq. simpl.
    split; apply (initial_snapshot_values P m e q); done || lia.
  - rewrite run_snapshots_S. apply Forall_app. split; [done|].
    case_decide as Ho; [|constructor].
    apply Forall_singleton. intros q Hq. simpl.
    destruct Ho as [Hp _]. rewrite !(run_hydrovars_frozen P m e (S n)) by lia.
    split; apply (initial_snapshot_values P m e q); done || lia.
Qed.

(** ** The diagnostic of the later steps *)

(** C2.  The claim is that at every output step the diagnostic written for a
    cell is the velocity of its population vector.  In the driver the output
    kernel of the time loop differs from the one of step 0: in every plot
    file written at a step [n] of the time loop, component 0 of a cell is the
    sum of [f_i * c[i][1]] over the population vector the cell has at step
    [n], its moment along y, where the claim puts the x-component of the
    velocity. *)
Theorem later_snapshots_store_the_y_moment `{H : LbmHeader}
    (pp : ParmParse) (m : RawMemory) (e : RandomEngine) :
  let P := read_params pp in
  Forall (fun sn : Z * Array4 =>
            1 <= sn.1 →
            ∀ q, in_box (grown P) q →
                 sn.2 q 0%nat = momentum (fold (run P m e (Z.to_nat sn.1)) q) 1)
         (snapshots (out (main_driver pp m e))).
Proof.
  intros P. unfold main_driver. fold P.
  generalize (Z.to_nat (nsteps P)) as n. intros n.
  induction n as [|n IH].
  - unfold run at 2. simpl. rewrite initial_output_out, snapshots_app.
    apply Forall_app. split; [by constructor|].
    case_decide as Hp; simpl; [|constructor].
    apply Forall_singleton. simpl. lia.
  - rewrite run_snapshots_S. apply Forall_app. split; [done|].
    case_decide as Ho; [|constructor].
    apply Forall_singleton. intros _ q Hq. simpl.
    rewrite Nat2Z.id, run_S, timestep_hydrovars, decide_True; done.
Qed.

(** ** No validation of the configuration *)

Lemma main_driver_printed_steps `{H : LbmHeader} pp m e :
  printed_steps (out (main_driver pp m e)) = seqZ 1 (nsteps (read_params pp)).
Proof.
  unfold main_driver. rewrite run_printed_steps. unfold seqZ. by rewrite Nat2Z.id.
Qed.

(** C7, as stated, fails: with a relaxation time of 0.1 and a temperature of
    -1 the run is not rejected, it goes through its three time steps. *)
Lemma configuration_errors_are_not_rejected :
  ¬ rejects_configuration_errors (H := D3Q7.header).
Proof.
  intros Hclaim.
  specialize (Hclaim bad_inputs zero_memory quiet_engine).
  rewrite main_driver_printed_steps in Hclaim.
  assert (Herr : configuration_error (read_params (H := D3Q7.header) bad_inputs)).
  { right. left. unfold read_params, query, bad_inputs. simpl.
    rewrite lookup_insert_eq. lra. }
  specialize (Hclaim Herr). discriminate Hclaim.
Qed.

(** C7, amended.  The driver checks no configuration value: whatever the
    grid size, the relaxation time and the temperature, the values given (or
    the defaults of the header) are used as they are and the time loop runs
    through the steps 1 to [nsteps]. *)
Theorem every_configuration_is_stepped `{H : LbmHeader}
    (pp : ParmParse) (m : RawMemory) (e : RandomEngine) :
  printed_steps (out (main_driver pp m e)) = seqZ 1 (nsteps (read_params pp)) ∧
  default_or_supplied (pp_real pp) "tau" tau_init (tau (read_params pp)) ∧
  default_or_supplied (pp_real pp) "temperature" temperature_init
    (temperature (read_params pp)).
Proof.
  split; [apply main_driver_printed_steps|].
  unfold default_or_supplied, read_params, query. simpl.
  split_and!; intros; simplify_option_eq; done.
Qed.

(** ** The initial field *)

Section InitialField.
Context `{H : LbmHeader}.

Lemma initialize_moments P m e q :
  in_box (grown P) q →
  let feq := fequilibrium 1%R
               (0%R, (A P * sin (2 * PI * IZR (ivx q) / IZR (nx P)))%R, 0%R) in
  density (fold (initialize P m e) q) = density feq ∧
  ∀ k, momentum (fold (initialize P m e) q) k = momentum feq k.
Proof.
  intros Hq feq. unfold density, momentum. split; [|intros k];
    apply sum_n_ext; intros i Hi; rewrite initialize_fold, decide_True; done.
Qed.

End InitialField.

Lemma D3Q7_equilibrium_guarantee : equilibrium_guarantee (H := D3Q7.header).
Proof.
  intros rho [[ux uy] uz]. unfold density, momentum. simpl.
  unfold D3Q7.feq, D3Q7.cu, D3Q7.weight, D3Q7.dir, ivx, ivy, ivz. simpl.
  split_and!; field.
Qed.

(** ** The shear wave at step 0 *)

Section ShearWave.
Context `{H : LbmHeader} (Heq : equilibrium_guarantee).

(** The moments of the initial population field in a cell. *)
Lemma initial_field_moments P m e q :
  in_box (grown P) q →
  let wave := (A P * sin (2 * PI * IZR (ivx q) / IZR (nx P)))%R in
  let f := fold (run P m e 0) q in
  density f = 1%R ∧ momentum f 0 = 0%R ∧ momentum f 1 = wave ∧ momentum f 2 = 0%R.
Proof.
  intros Hq wave f.
  destruct (initialize_moments P m e q Hq) as [Hd Hm].
  destruct (Heq 1%R (0%R, wave, 0%R)) as (Ed & E0 & E1 & E2). simpl in E0, E1, E2.
  assert (Hf : f = fold (initialize P m e) q).
  { unfold f, run. simpl. by rewrite initial_output_fold. }
  rewrite Hf, Hd, !Hm. fold wave. rewrite Ed, E0, E1, E2. split_and!; lra.
Qed.

End ShearWave.

(** C6.  With an equilibrium that has the moments the specification
    guarantees, the velocity field extracted from the initial population
    field is the prescribed shear wave: in every cell the x- and z-components
    are zero and the y-component is [A * sin (2 π x / nx)], which depends on
    [x] only; the density is one, so the stored first moment and the
    velocity of the specification coincide.  With no inputs this is
    [0.001 * sin (2 π x / 16)]. *)
Theorem initial_velocity_is_the_shear_wave `{H : LbmHeader}
    (pp : ParmParse) (m : RawMemory) (e : RandomEngine) (q : IntVect) :
  let P := read_params pp in
  let s := run P m e 0 in
  let wave := (A P * sin (2 * PI * IZR (ivx q) / IZR (nx P)))%R in
  equilibrium_guarantee → 0 < plot_int P → in_box (grown P) q →
  (hydrovars s q 0%nat = 0%R ∧ hydrovars s q 1%nat = wave ∧ hydrovars s q 2%nat = 0%R) ∧
  (velocity (fold s q) 0 = 0%R ∧ velocity (fold s q) 1 = wave ∧
   velocity (fold s q) 2 = 0%R).
Proof.
  intros P s wave Heq Hp Hq.
  destruct (initial_field_moments Heq P m e q Hq) as (Hd & H0 & H1 & H2).
  fold s wave in Hd, H0, H1, H2. split.
  - unfold s. rewrite !(initial_snapshot_values P m e q) by (done || lia).
    by fold s.
  - unfold velocity. rewrite Hd, H0, H1, H2. split_and!; field.
Qed.

(** The default run on the seven-velocity lattice, at a cell with [x] = 4. *)
Lemma initial_velocity_is_the_shear_wave_witness :
  let s := run (H := D3Q7.header) (read_params (H := D3Q7.header) no_inputs)
             zero_memory quiet_engine 0 in
  equilibrium_guarantee (H := D3Q7.header) ∧
  0 < plot_int (read_params (H := D3Q7.header) no_inputs) ∧
  in_box (grown (read_params (H := D3Q7.header) no_inputs)) (4, 7, 9) ∧
  hydrovars s (4, 7, 9) 0%nat = 0%R ∧
  hydrovars s (4, 7, 9) 1%nat = (0.001 * sin (2 * PI * 4 / 16))%R ∧
  hydrovars s (4, 7, 9) 2%nat = 0%R.
Proof.
  intros s.
  assert (Hp : 0 < plot_int (read_params (H := D3Q7.header) no_inputs))
    by reflexivity.
  assert (Hq : in_box (grown (read_params (H := D3Q7.header) no_inputs)) (4, 7, 9))
    by (lazy; intuition discriminate).
  split_and!; [exact D3Q7_equilibrium_guarantee|exact Hp|exact Hq|..];
    apply (initial_velocity_is_the_shear_wave (H := D3Q7.header) no_inputs
             zero_memory quiet_engine (4, 7, 9) D3Q7_equilibrium_guarantee Hp Hq).
Defined.

(** On the default inputs the velocity snapshot of step 0 is not the zero
    field: a quarter of the way along x the y-component is the full
    amplitude 0.001, while the field handed to [FortStructure] at that step
    is zero there. *)
Lemma shear_wave_is_not_accumulated :
  let s := run (H := D3Q7.header) (read_params (H := D3Q7.header) no_inputs)
             zero_memory quiet_engine 0 in
  hydrovars s (4, 0, 0) 1%nat = 0.001%R ∧
  accumulated_fields (out s) = [setVal0] ∧
  setVal0 (4, 0, 0) 1%nat = 0%R.
Proof.
  intros s. split_and!; [|done..].
  assert (Hq : in_box (grown (read_params (H := D3Q7.header) no_inputs)) (4, 0, 0))
    by (lazy; intuition discriminate).
  unfold s. rewrite initial_snapshot_values by (done || lia).
  destruct (initial_field_moments D3Q7_equilibrium_guarantee
              (read_params (H := D3Q7.header) no_inputs)
              zero_memory quiet_engine (4, 0, 0) Hq) as (_ & _ & -> & _).
  change (0.001 * sin (2 * PI * 4 / 16) = 0.001)%R.
  replace (2 * PI * 4 / 16)%R with (PI / 2)%R by field.
  rewrite sin_PI2. lra.
Qed.


(** ** The collision operator of the specification *)

Section Collision.
Context (L : MrtModel) (HL : MrtContract L).

Lemma to_moments_plus (g h : nat → R) (a : nat) :
  to_moments L (fun i => g i + h i)%R a = (to_moments L g a + to_moments L h a)%R.
Proof.
  unfold to_moments. rewrite <- sum_n_plus. apply sum_n_ext. intros. lra.
Qed.

Lemma to_moments_minus (g h : nat → R) (a : nat) :
  to_moments L (fun i => g i - h i)%R a = (to_moments L g a - to_moments L h a)%R.
Proof.
  unfold to_moments. rewrite <- sum_n_minus. apply sum_n_ext. intros. lra.
Qed.

(** Going back to populations and forth to moments returns the moments. *)
Lemma to_from_moments (m : nat → R) (a : nat) :
  (a < Q L)%nat → to_moments L (from_moments L m) a = m a.
Proof.
  intros Ha. unfold to_moments, from_moments.
  rewrite (sum_n_ext _ _ (fun i => sum_n (Q L) (fun b => Mmat L a i * Minv L i b * m b)%R)).
  2:{ intros i Hi. rewrite <- sum_n_scale. apply sum_n_ext. intros. lra. }
  rewrite sum_n_swap.
  rewrite (sum_n_ext _ _ (fun b => (if decide (a = b) then 1 else 0) * m b)%R).
  - by apply sum_n_pick.
  - intros b Hb. rewrite <- (back_and_forth L HL a b) by done.
    rewrite (Rmult_comm _ (m b)), <- sum_n_scale. apply sum_n_ext. intros. lra.
Qed.

Lemma to_moments_density (g : nat → R) : to_moments L g 0 = mdensity L g.
Proof.
  unfold to_moments, mdensity. apply sum_n_ext. intros i Hi.
  rewrite (density_row L HL) by done. lra.
Qed.

Lemma to_moments_momentum (g : nat → R) (k : nat) :
  (k < 3)%nat → to_moments L g (S k) = mmomentum L g k.
Proof.
  intros Hk. unfold to_moments, mmomentum. apply sum_n_ext. intros i Hi.
  rewrite (momentum_rows L HL) by done. lra.
Qed.

Lemma correction_conserved (tau T : R) (e : Engine L) (a : nat) :
  (a < 4)%nat → correction L tau T e a = 0%R.
Proof.
  intros Ha. unfold correction, thermal_noise, conserved.
  destruct (Rlt_dec 0 T); [|done].
  destruct (Nat.ltb_spec a 4); [done|lia].
Qed.

(** The conserved moments pass through the collision unchanged. *)
Lemma collide_conserved_moment (f : nat → R) (tau T : R) (e : Engine L) (a : nat) :
  (a < 4)%nat → to_moments L (collide L f tau T e) a = to_moments L f a.
Proof.
  intros Ha. pose proof (enough_directions L HL) as HQ.
  unfold collide, relax. cbn [moments].
  rewrite to_moments_plus, to_from_moments by lia.
  rewrite (conserved_rate L HL), correction_conserved by done.
  rewrite to_moments_minus. lra.
Qed.

End Collision.

(** C4.  For every population vector, relaxation time, temperature and
    random engine, the collision operator of the specification leaves the
    density and the three components of the momentum unchanged (in exact
    arithmetic). *)
Theorem collide_conserves_density_and_momentum (L : MrtModel)
    (f : nat → R) (tau T : R) (e : Engine L) :
  MrtContract L →
  mdensity L (collide L f tau T e) = mdensity L f ∧
  mmomentum L (collide L f tau T e) 0 = mmomentum L f 0 ∧
  mmomentum L (collide L f tau T e) 1 = mmomentum L f 1 ∧
  mmomentum L (collide L f tau T e) 2 = mmomentum L f 2.
Proof.
  intros HL. rewrite <- !(to_moments_density L HL).
  rewrite <- !(to_moments_momentum L HL) by lia.
  split_and!; apply collide_conserved_moment; done || lia.
Qed.

(** The seven-velocity model meets the contract. *)
Lemma D3Q7_contract : MrtContract D3Q7.model.
Proof.
  split; simpl.
  - lia.
  - done.
  - intros k i Hk Hi. destruct k as [|[|[|k]]]; simpl; done || lia.
  - intros a b Ha Hb.
    assert (Hc : ∀ n, (n < 7)%nat → n ∈ [0; 1; 2; 3; 4; 5; 6]%nat).
    { intros n Hn. do 7 (destruct n as [|n]; [set_solver|]). lia. }
    pose proof (Hc a Ha) as Ha'. pose proof (Hc b Hb) as Hb'. clear Hc Ha Hb.
    repeat (apply elem_of_cons in Ha' as [->|Ha']); [..|by apply elem_of_nil in Ha'];
      repeat (apply elem_of_cons in Hb' as [->|Hb']);
      try (by apply elem_of_nil in Hb');
      unfold D3Q7.M, D3Q7.Mi, D3Q7.dir, ivx, ivy, ivz; simpl; lra.
  - intros tau a Ha. unfold D3Q7.omega.
    destruct (Nat.ltb_spec a 4); [done|lia].
Qed.

(** A collision at temperature 1 with every draw equal to 1. *)
Lemma collide_conserves_density_and_momentum_witness :
  MrtContract D3Q7.model ∧
  mdensity D3Q7.model
    (collide D3Q7.model (heavy_field (0, 0, 0)) 1%R 1%R (fun _ => 1%R))
  = mdensity D3Q7.model (heavy_field (0, 0, 0)).
Proof.
  split; [exact D3Q7_contract|].
  exact (proj1 (collide_conserves_density_and_momentum D3Q7.model
                  (heavy_field (0, 0, 0)) 1%R 1%R (fun _ => 1%R) D3Q7_contract)).
Defined.

(** ** The streaming step of the specification *)

Lemma mod_shift (N x y d : Z) :
  0 < N → 0 <= x < N → 0 <= y < N → (x + d) `mod` N = y ↔ x = (y - d) `mod` N.
Proof.
  intros HN Hx Hy. split.
  - intros <-. rewrite Zminus_mod_idemp_l.
    replace (x + d - d) with x by lia. by rewrite Z.mod_small.
  - intros ->. rewrite Zplus_mod_idemp_l.
    replace (y - d + d) with y by lia. by rewrite Z.mod_small.
Qed.

Lemma in_cube (N : Z) (p : IntVect) :
  in_box (cube N) p ↔ 0 <= ivx p < N ∧ 0 <= ivy p < N ∧ 0 <= ivz p < N.
Proof. unfold in_box, cube, ivx, ivy, ivz. simpl. lia. Qed.

Lemma wrap_in_cube (N : Z) (p : IntVect) : 0 < N → in_box (cube N) (wrap N p).
Proof.
  intros HN. apply in_cube. unfold wrap, ivx, ivy, ivz. simpl.
  split_and!; apply Z.mod_pos_bound; lia.
Qed.

Lemma sum_list_cons (x : R) (l : list R) : sum_list (x :: l) = (x + sum_list l)%R.
Proof. done. Qed.

Lemma sum_list_perm (l k : list R) : l ≡ₚ k → sum_list l = sum_list k.
Proof.
  induction 1 as [|x l k _ IH|x y l|l k j _ IH1 _ IH2];
    rewrite ?sum_list_cons; [done|rewrite IH; lra|lra|congruence].
Qed.

(** A sum over cells of a sum over directions, in the other order. *)
Lemma sum_list_sum_n {C : Type} (l : list C) (n : nat) (g : C → nat → R) :
  sum_list ((fun p => sum_n n (g p)) <$> l)
  = sum_n n (fun i => sum_list ((fun p => g p i) <$> l)).
Proof.
  induction l as [|p l IH].
  - symmetry. apply sum_n_zero.
  - rewrite fmap_cons, sum_list_cons, IH, <- sum_n_plus.
    apply sum_n_ext. intros i _. by rewrite fmap_cons, sum_list_cons.
Qed.

Section Streaming.
Context (L : MrtModel) (N : Z) (HN : 0 < N).

Lemma stream_cell_spec (g : nat → R) (p : IntVect) (a : Array4) q i :
  stream_cell L N g p a q i
  = if decide (wrap N (neighbor L p i) = q ∧ (i < Q L)%nat) then g i else a q i.
Proof.
  unfold stream_cell. induction (Q L) as [|m IH].
  - unfold for_loop. simpl. rewrite decide_False; [done|]. lia.
  - rewrite for_loop_S. unfold set4 at 1. rewrite IH. clear IH.
    destruct (decide (wrap N (neighbor L p i) = q)) as [<-|Hq].
    + destruct (decide (i = m)) as [->|Him].
      * by rewrite !decide_True by (split; [done|lia]).
      * rewrite decide_False by tauto. apply decide_ext.
        split; (intros [_ ?]; split; [done|lia]).
    + rewrite !decide_False; [done|tauto|tauto|]. intros [-> ->]. done.
Qed.

Lemma neighbor_upstream (p q : IntVect) (i : nat) :
  in_box (cube N) p → in_box (cube N) q →
  wrap N (neighbor L p i) = q ↔ p = upstream L N q i.
Proof.
  rewrite !in_cube. destruct p as [[x y] z], q as [[x' y'] z'].
  unfold upstream, wrap, neighbor, ivx, ivy, ivz. simpl.
  intros (Hx & Hy & Hz) (Hx' & Hy' & Hz').
  pose proof (mod_shift N x x' (cvec L i 0) HN Hx Hx') as Mx.
  pose proof (mod_shift N y y' (cvec L i 1) HN Hy Hy') as My.
  pose proof (mod_shift N z z' (cvec L i 2) HN Hz Hz') as Mz.
  split; intros [= E1 E2 E3]; apply Mx in E1; apply My in E2; apply Mz in E3;
    congruence.
Qed.

Lemma upstream_in_cube (q : IntVect) (i : nat) : in_box (cube N) (upstream L N q i).
Proof. by apply wrap_in_cube. Qed.

(** After the pass over a list of cells of the grid, a cell holds in
    direction [i] what its upstream cell sent, once that cell has been
    visited. *)
Lemma stream_cells_spec (post : Array4) (l : list IntVect) (a : Array4) q i :
  Forall (in_box (cube N)) l → in_box (cube N) q →
  foldl (fun a p => stream_cell L N (post p) p a) a l q i
  = if decide (upstream L N q i ∈ l ∧ (i < Q L)%nat)
    then post (upstream L N q i) i else a q i.
Proof.
  intros Hl Hq. revert a. induction Hl as [|p l Hp Hl IH]; intros a; cbn [foldl].
  - rewrite decide_False; [done|]. intros [Hin _]. by apply elem_of_nil in Hin.
  - rewrite IH, stream_cell_spec. clear IH.
    pose proof (neighbor_upstream p q i Hp Hq) as Hpq.
    destruct (decide (upstream L N q i ∈ l ∧ (i < Q L)%nat)) as [[Hin Hi]|Hn].
    + rewrite decide_True; [done|]. split; [by right|done].
    + destruct (decide (wrap N (neighbor L p i) = q ∧ (i < Q L)%nat)) as [[Hw Hi]|Hw].
      * apply Hpq in Hw. rewrite decide_True; [by subst p|].
        split; [|done]. rewrite <- Hw. by left.
      * rewrite decide_False; [done|]. intros [Hin Hi].
        apply elem_of_cons in Hin as [Heq|Hin]; [|tauto].
        apply Hw. split; [|done]. by apply Hpq.
Qed.

Lemma stream_spec (post fNew : Array4) q i :
  in_box (cube N) q → (i < Q L)%nat →
  stream L N post fNew q i = post (upstream L N q i) i.
Proof.
  intros Hq Hi. unfold stream, ParallelFor.
  rewrite stream_cells_spec, decide_True; [done| |..|done].
  - split; [|done]. apply elem_of_box_cells, upstream_in_cube.
  - apply Forall_forall. intros p. by rewrite elem_of_box_cells.
Qed.

(** Looking upstream along one direction permutes the cells of the grid. *)
Lemma upstream_permutation (i : nat) :
  (fun q => upstream L N q i) <$> box_cells (cube N) ≡ₚ box_cells (cube N).
Proof.
  apply NoDup_Permutation.
  - apply NoDup_fmap_2_strong; [|apply NoDup_box_cells].
    intros q1 q2 H1%elem_of_box_cells H2%elem_of_box_cells Heq.
    pose proof (upstream_in_cube q1 i) as Hu.
    assert (E1 : wrap N (neighbor L (upstream L N q1 i) i) = q1)
      by (by apply neighbor_upstream).
    assert (E2 : wrap N (neighbor L (upstream L N q1 i) i) = q2)
      by (apply neighbor_upstream; done).
    congruence.
  - apply NoDup_box_cells.
  - intros p. rewrite list_elem_of_fmap. setoid_rewrite elem_of_box_cells. split.
    + intros (q & -> & _). apply upstream_in_cube.
    + intros Hp. exists (wrap N (neighbor L p i)).
      split; [|by apply wrap_in_cube].
      apply neighbor_upstream; [done|by apply wrap_in_cube|done].
Qed.

(** Any quantity carried by the populations has the same total over the
    grid before and after streaming. *)
Lemma stream_total (post fNew : Array4) (phi : nat → R → R) :
  sum_list ((fun p => sum_n (Q L) (fun i => phi i (stream L N post fNew p i)))
              <$> box_cells (cube N))
  = sum_list ((fun p => sum_n (Q L) (fun i => phi i (post p i)))
                <$> box_cells (cube N)).
Proof.
  rewrite (list_fmap_ext _
             (fun p => sum_n (Q L) (fun i => phi i (post (upstream L N p i) i)))).
  2:{ intros j p Hp%list_elem_of_lookup_2%elem_of_box_cells.
      apply sum_n_ext. intros i Hi. by rewrite stream_spec. }
  rewrite !sum_list_sum_n. apply sum_n_ext. intros i Hi.
  apply sum_list_perm.
  rewrite <- (upstream_permutation i) at 2.
  by rewrite <- list_fmap_compose.
Qed.

End Streaming.

Lemma box_cells_cube_empty (N : Z) : N <= 0 → box_cells (cube N) = [].
Proof.
  intros HN. unfold box_cells, cube, zrange, ivz. simpl.
  by rewrite (seqZ_nil 0 (N - 1 - 0 + 1)) by lia.
Qed.

(** C5.  One streaming pass of the specification over the periodic grid
    leaves the total mass and each component of the total momentum unchanged
    (in exact arithmetic), whatever the field and the grid size. *)
Theorem stream_conserves_total_mass_and_momentum (L : MrtModel) (N : Z)
    (post fNew : Array4) :
  total_mass L N (stream L N post fNew) = total_mass L N post ∧
  ∀ k, total_momentum L N (stream L N post fNew) k = total_momentum L N post k.
Proof.
  unfold total_mass, total_momentum, mdensity, mmomentum.
  destruct (decide (0 < N)) as [HN|HN].
  - split; [|intros k].
    + apply (stream_total L N HN post fNew (fun _ v => v)).
    + apply (stream_total L N HN post fNew (fun i v => v * IZR (cvec L i k))%R).
  - by rewrite box_cells_cube_empty by lia.
Qed.

(** ** Runs at zero temperature *)

Section ZeroTemperature.
Context (L : MrtModel) (N : Z).


Lemma correction_cold (tau T : R) (e : Engine L) :
  T = 0%R → correction L tau T e = fun _ => 0%R.
Proof.
  intros ->. unfold correction. destruct (Rlt_dec 0 0) as [Hlt|_]; [lra|done].
Qed.





End ZeroTemperature.



(** ** A whole time step on the kernels of the specification

    The driver's [FillBoundary], kernel pass and [Copy], with the kernels of
    the specification on the grid of the run: the totals over the domain are
    those of the previous step. *)

Lemma foldl_ext_in {S C : Type} (f g : S → C → S) (l : list C) (s : S) :
  (∀ s x, x ∈ l → f s x = g s x) → foldl f s l = foldl g s l.
Proof.
  revert s. induction l as [|x l IH]; intros s Hfg; [done|]. cbn [foldl].
  rewrite Hfg by (by left). apply IH. intros s' y Hy. apply Hfg. by right.
Qed.

Section WholeStep.
Context (L : MrtModel) (HL : MrtContract L) (P : Params) (HN : 0 < nx P).

#[local] Instance whole_step_header : LbmHeader := spec_header L (nx P).

(** The kernel pass is a streaming pass of post-collision populations, each
    cell colliding with the engine as it is at its turn. *)
Lemma kernel_pass_is_stream (fOld : Array4) (tau T : R) (l : list IntVect) :
  NoDup l → ∀ (fNew : Array4) (e : Engine L),
  ∃ eng : IntVect → Engine L,
    (foldl (fun s p => spec_stream_collide L (nx P) tau T p fOld s.1 s.2) (fNew, e) l).1
    = foldl (fun a p => stream_cell L (nx P) (collide L (fOld p) tau T (eng p)) p a)
        fNew l.
Proof.
  induction 1 as [|p l Hp Hl IH]; intros fNew e.
  - by exists (fun _ => e).
  - cbn [foldl]. unfold spec_stream_collide at 2. cbn [fst snd].
    destruct (IH (stream_cell L (nx P) (collide L (fOld p) tau T e) p fNew)
                (advance L e)) as [eng' Heng].
    exists (fun q => if decide (q = p) then e else eng' q).
    rewrite Heng, decide_True by done.
    apply foldl_ext_in. intros a q Hq.
    rewrite decide_False; [done|]. intros ->. done.
Qed.

Lemma timestep_totals (step : Z) (s : State) (phi : nat → R → R) :
  (∀ f tau T e,
     sum_n (Q L) (fun i => phi i (collide L f tau T e i))
     = sum_n (Q L) (fun i => phi i (f i))) →
  sum_list ((fun p => sum_n (Q L) (fun i => phi i (fold (timestep P step s) p i)))
              <$> box_cells (cube (nx P)))
  = sum_list ((fun p => sum_n (Q L) (fun i => phi i (fold s p i)))
                <$> box_cells (cube (nx P))).
Proof.
  intros Hphi. rewrite timestep_fold.
  destruct (kernel_pass_is_stream (FillBoundary P (fold s)) (tau P) (temperature P)
              (box_cells (domain P)) (NoDup_box_cells _) (fnew s) (engine s))
    as [eng Heng].
  change ((stream_collide_all P (FillBoundary P (fold s)) (fnew s) (engine s)).1
          = stream L (nx P)
              (fun p => collide L (FillBoundary P (fold s) p) (tau P) (temperature P)
                          (eng p))
              (fnew s)) in Heng.
  rewrite Heng.
  set (post := fun p => collide L (FillBoundary P (fold s) p) (tau P) (temperature P)
                          (eng p)).
  rewrite (list_fmap_ext _
             (fun p => sum_n (Q L) (fun i => phi i (stream L (nx P) post (fnew s) p i)))).
  2:{ intros j p Hp%list_elem_of_lookup_2%elem_of_box_cells.
      apply sum_n_ext. intros i Hi. unfold Copy.
      rewrite decide_True by done. done. }
  rewrite (stream_total L (nx P) HN post (fnew s) phi).
  f_equal. apply list_fmap_ext. intros j p Hp%list_elem_of_lookup_2%elem_of_box_cells.
  unfold post. rewrite Hphi. apply sum_n_ext. intros i Hi.
  unfold FillBoundary. rewrite decide_False; [done|]. intros [_ Hout]. by apply Hout.
Qed.

(** One time step of the driver leaves the total mass and the total momentum
    over the domain unchanged. *)
Lemma timestep_conserves_totals (step : Z) (s : State) :
  total_mass L (nx P) (fold (timestep P step s)) = total_mass L (nx P) (fold s) ∧
  ∀ k, (k < 3)%nat →
    total_momentum L (nx P) (fold (timestep P step s)) k
    = total_momentum L (nx P) (fold s) k.
Proof.
  unfold total_mass, total_momentum, mdensity, mmomentum. split.
  - apply (timestep_totals step s (fun _ v => v)). intros f tau T e.
    pose proof (collide_conserved_moment L HL f tau T e 0%nat) as Hc.
    rewrite !(to_moments_density L HL) in Hc. apply Hc. lia.
  - intros k Hk.
    apply (timestep_totals step s (fun i v => v * IZR (cvec L i k))%R).
    intros f tau T e.
    pose proof (collide_conserved_moment L HL f tau T e (S k)) as Hc.
    rewrite !(to_moments_momentum L HL) in Hc by done. apply Hc. lia.
Qed.

End WholeStep.

(** ** The order and the number of the output events *)

Section TraceShape.
Context `{H : LbmHeader}.

Lemma run_kinds P m e n :
  kind_of <$> out (run P m e n)
  = initial_kinds P ++ (seqZ 1 (Z.of_nat n) ≫= step_kinds P).
Proof.
  induction n as [|n IH].
  - unfold run, initial_kinds. simpl. rewrite initial_output_out. simpl.
    rewrite app_nil_r. by case_decide.
  - rewrite run_S, timestep_out, !fmap_app, IH, seqZ_S, bind_app, bind_singleton.
    rewrite <- app_assoc. f_equal. f_equal.
    replace (1 + Z.of_nat n) with (Z.of_nat (S n)) by lia.
    unfold step_kinds. by case_decide.
Qed.

Lemma run_accumulated_count P m e n :
  length (accumulated_fields (out (run P m e n)))
  = (n + if decide (0 < plot_int P)%Z then 1 else 0)%nat.
Proof.
  induction n as [|n IH].
  - unfold run. simpl. rewrite initial_output_out. simpl. by case_decide.
  - rewrite run_S, timestep_out, !accumulated_fields_app, !length_app, IH.
    clear IH. simpl. repeat case_decide; simpl; lia.
Qed.

Lemma run_snapshot_steps P m e n :
  (snapshots (out (run P m e n))).*1
  = if decide (0 < plot_int P)
    then 0 :: filter (fun k => Z.rem k (plot_int P) = 0) (seqZ 1 (Z.of_nat n))
    else [].
Proof.
  induction n as [|n IH].
  - unfold run. simpl. rewrite initial_output_out. simpl. by case_decide.
  - rewrite run_snapshots_S, fmap_app, IH, seqZ_S, filter_app. clear IH.
    replace (1 + Z.of_nat n) with (Z.of_nat (S n)) by lia.
    unfold output_step. rewrite filter_cons, filter_nil.
    destruct (decide (0 < plot_int P)) as [Hp|Hp].
    + destruct (decide (Z.rem (Z.of_nat (S n)) (plot_int P) = 0)) as [Hr|Hr].
      * by rewrite decide_True by done.
      * rewrite decide_False by tauto. by rewrite !app_nil_r.
    + rewrite decide_False by tauto. done.
Qed.

Lemma run_time P m e n : time (run P m e n) = IZR (Z.of_nat n).
Proof.
  destruct n as [|n].
  - unfold run, initial_output. simpl. by case_decide.
  - rewrite run_S. unfold timestep. destruct (stream_collide_all _ _ _ _).
    by case_decide.
Qed.

Lemma run_last_snapshot P m e n :
  snd <$> last (snapshots (out (run P m e n)))
  = if decide (0 < plot_int P) then Some (hydrovars (run P m e n)) else None.
Proof.
  induction n as [|n IH].
  - unfold run. simpl. rewrite initial_output_out, snapshots_app. simpl.
    unfold initial_output. by case_decide.
  - rewrite run_snapshots_S. destruct (decide (output_step P (Z.of_nat (S n)))) as [Ho|Ho].
    + rewrite last_snoc. simpl. destruct Ho as [Hp _]. by rewrite decide_True.
    + rewrite app_nil_r, IH. case_decide; [|done]. f_equal.
      rewrite run_S. unfold timestep. destruct (stream_collide_all _ _ _ _).
      fold (output_step P (Z.of_nat (S n))). by rewrite decide_False.
Qed.

End TraceShape.

(** The positive multiples of [p] up to [N], one by one or all at once. *)
Lemma multiples_upto (p : Z) (n : nat) :
  0 < p →
  filter (fun k => Z.rem k p = 0) (seqZ 1 (Z.of_nat n))
  = (fun k => k * p) <$> seqZ 1 (Z.of_nat n / p).
Proof.
  intros Hp. induction n as [|n IH].
  - by rewrite Z.div_0_l by lia.
  - rewrite seqZ_S, filter_app, IH, filter_cons, filter_nil. clear IH.
    set (a := Z.of_nat n). assert (Ha : 0 <= a) by lia.
    replace (Z.of_nat (S n)) with (a + 1) by lia.
    replace (1 + a) with (a + 1) by lia.
    pose proof (Z.div_mod a p ltac:(lia)) as E1.
    pose proof (Z.mod_pos_bound a p Hp) as B1.
    pose proof (Z.div_mod (a + 1) p ltac:(lia)) as E2.
    pose proof (Z.mod_pos_bound (a + 1) p Hp) as B2.
    assert (Hq : 0 <= a / p) by (apply Z.div_pos; lia).
    rewrite Z.rem_mod_nonneg by lia.
    destruct (decide ((a + 1) `mod` p = 0)) as [Hm|Hm].
    + assert (Hd : (a + 1) / p = a / p + 1) by nia.
      rewrite Hd, seqZ_app, fmap_app by lia. f_equal.
      rewrite seqZ_cons, seqZ_nil by lia. simpl. f_equal. nia.
    + assert (Hd : (a + 1) / p = a / p) by nia.
      by rewrite Hd, app_nil_r.
Qed.

Lemma flush_samples_app (count : nat) (tr1 tr2 : list event) :
  flush_samples count (tr1 ++ tr2)
  = flush_samples count tr1
    ++ flush_samples (count + length (accumulated_fields tr1)) tr2.
Proof.
  revert count. induction tr1 as [|ev tr1 IH]; intros count.
  - simpl. by rewrite Nat.add_0_r.
  - destruct ev; simpl; rewrite IH; try done.
    + do 2 f_equal. unfold accumulated_fields. simpl. lia.
Qed.

Section TraceShapeSilent.
Context `{H : LbmHeader}.

Lemma run_flush_samples P m e n :
  flush_samples 0 (out (run P m e n))
  = (fun k => (k, S (Z.to_nat k))) <$> (snapshots (out (run P m e n))).*1.
Proof.
  induction n as [|n IH].
  - unfold run. simpl. rewrite initial_output_out. simpl. by case_decide.
  - rewrite run_snapshots_S, !fmap_app, <- IH. clear IH.
    rewrite run_S, timestep_out, flush_samples_app, run_accumulated_count.
    f_equal. destruct (decide (output_step P (Z.of_nat (S n)))) as [[Hp Hr]|Ho].
    + rewrite decide_True by done. simpl. do 3 f_equal. lia.
    + done.
Qed.

Lemma run_hydrovars_silent P m e n :
  plot_int P <= 0 → hydrovars (run P m e n) = raw_hydrovars m.
Proof.
  intros Hp. induction n as [|n IH].
  - unfold run, initial_output. simpl. rewrite decide_False by lia. done.
  - rewrite run_S. unfold timestep. destruct (stream_collide_all _ _ _ _).
    rewrite decide_False by lia. done.
Qed.

End TraceShapeSilent.

(** X1.  The output of a run, in order: when [plot_int] is positive, the plot
    file of step 0, one [FortStructure] call and the structure-factor file of
    step 0; then for each step 1, 2, ..., [nsteps] one [FortStructure] call
    and the step's print, followed at an output step by the plot file and the
    structure-factor file of that step, both tagged with the time equal to
    the step. *)
Theorem main_driver_trace_shape `{H : LbmHeader}
    (pp : ParmParse) (m : RawMemory) (e : RandomEngine) :
  let P := read_params pp in
  kind_of <$> out (main_driver pp m e)
  = initial_kinds P ++ (seqZ 1 (nsteps P) ≫= step_kinds P).
Proof.
  intros P. unfold main_driver. fold P. rewrite run_kinds.
  unfold seqZ. by rewrite Nat2Z.id.
Qed.

(** X2.  [FortStructure] is called once per time step, and once more before
    the first step exactly when [plot_int] is positive. *)
Theorem FortStructure_call_count `{H : LbmHeader}
    (pp : ParmParse) (m : RawMemory) (e : RandomEngine) :
  let P := read_params pp in
  length (accumulated_fields (out (main_driver pp m e)))
  = (Z.to_nat (nsteps P) + if decide (0 < plot_int P)%Z then 1 else 0)%nat.
Proof. intros P. apply run_accumulated_count. Qed.

(** X3.  With a positive [plot_int], the plot files of a run are those of
    the steps 0, [plot_int], 2 [plot_int], ... up to the last multiple of
    [plot_int] that does not exceed [nsteps], in this order. *)
Theorem snapshots_at_multiples_of_plot_int `{H : LbmHeader}
    (pp : ParmParse) (m : RawMemory) (e : RandomEngine) :
  let P := read_params pp in
  0 < plot_int P →
  (snapshots (out (main_driver pp m e))).*1
  = (fun k => k * plot_int P) <$> seqZ 0 (Z.max 0 (nsteps P) / plot_int P + 1).
Proof.
  intros P Hp. unfold main_driver. fold P.
  rewrite run_snapshot_steps, decide_True, multiples_upto by done.
  replace (Z.of_nat (Z.to_nat (nsteps P))) with (Z.max 0 (nsteps P)) by lia.
  assert (Hq : 0 <= Z.max 0 (nsteps P) / plot_int P) by (apply Z.div_pos; lia).
  rewrite (seqZ_cons 0) by lia. rewrite fmap_cons. f_equal.
  replace (Z.pred (Z.max 0 (nsteps P) / plot_int P + 1))
    with (Z.max 0 (nsteps P) / plot_int P) by lia.
  done.
Qed.

(** The default run writes the plot files of steps 0, 10, ..., 100. *)
Lemma snapshots_at_multiples_of_plot_int_witness :
  0 < plot_int (read_params (H := D3Q7.header) no_inputs) ∧
  (snapshots (out (main_driver (H := D3Q7.header) no_inputs zero_memory
                     quiet_engine))).*1
  = [0; 10; 20; 30; 40; 50; 60; 70; 80; 90; 100].
Proof.
  assert (Hp : 0 < plot_int (read_params (H := D3Q7.header) no_inputs))
    by reflexivity.
  split; [exact Hp|].
  exact (snapshots_at_multiples_of_plot_int (H := D3Q7.header) no_inputs
           zero_memory quiet_engine Hp).
Defined.

(** X4.  When the structure factor is written at step [n], [FortStructure]
    has been called exactly [n + 1] times; the structure factor is written
    at the same steps as the plot files. *)
Theorem structure_factor_is_written_after_its_samples `{H : LbmHeader}
    (pp : ParmParse) (m : RawMemory) (e : RandomEngine) :
  flush_samples 0 (out (main_driver pp m e))
  = (fun k => (k, S (Z.to_nat k))) <$> (snapshots (out (main_driver pp m e))).*1.
Proof. apply run_flush_samples. Qed.

(** X5.  With [plot_int] zero or negative a run writes no file at all: its
    output is one [FortStructure] call and one print per step, there is no
    [FortStructure] call before the first step, and the hydrodynamic field is
    never written: it still holds what the allocation left in it. *)
Theorem nonpositive_plot_int_disables_output `{H : LbmHeader}
    (pp : ParmParse) (m : RawMemory) (e : RandomEngine) :
  let P := read_params pp in
  plot_int P <= 0 →
  kind_of <$> out (main_driver pp m e)
  = (seqZ 1 (nsteps P) ≫= fun n => [KFort; KPrint n]) ∧
  hydrovars (main_driver pp m e) = raw_hydrovars m.
Proof.
  intros P Hp. split.
  - unfold main_driver. fold P. rewrite run_kinds.
    unfold initial_kinds. rewrite decide_False by lia. simpl.
    unfold seqZ. rewrite Nat2Z.id. apply list_bind_ext; [|done].
    intros n. unfold step_kinds, output_step.
    rewrite decide_False by lia. done.
  - by apply run_hydrovars_silent.
Qed.

(** Four steps with [plot_int = 0]. *)
Lemma nonpositive_plot_int_disables_output_witness :
  plot_int (read_params (H := D3Q7.header) silent_inputs) <= 0 ∧
  kind_of <$> out (main_driver (H := D3Q7.header) silent_inputs zero_memory
                     quiet_engine)
  = [KFort; KPrint 1; KFort; KPrint 2; KFort; KPrint 3; KFort; KPrint 4].
Proof.
  assert (Hp : plot_int (read_params (H := D3Q7.header) silent_inputs) <= 0)
    by (change (0 <= 0); lia).
  split; [exact Hp|].
  exact (proj1 (nonpositive_plot_int_disables_output (H := D3Q7.header)
                  silent_inputs zero_memory quiet_engine Hp)).
Defined.

(** X6.  At the end of a run the simulated time is the number of steps
    taken: [nsteps], or zero when [nsteps] is negative. *)
Theorem final_time_is_the_step_count `{H : LbmHeader}
    (pp : ParmParse) (m : RawMemory) (e : RandomEngine) :
  time (main_driver pp m e) = IZR (Z.max 0 (nsteps (read_params pp))).
Proof.
  unfold main_driver. rewrite run_time. f_equal. lia.
Qed.

(** X7.  With a positive [plot_int], the last plot file of a run holds the
    hydrodynamic field as it is in memory at the end of the run; otherwise
    there is no plot file. *)
Theorem last_snapshot_is_the_final_field `{H : LbmHeader}
    (pp : ParmParse) (m : RawMemory) (e : RandomEngine) :
  snd <$> last (snapshots (out (main_driver pp m e)))
  = if decide (0 < plot_int (read_params pp))
    then Some (hydrovars (main_driver pp m e)) else None.
Proof. apply run_last_snapshot. Qed.

(** ** The initial field, ghost cells included *)

Section InitialFieldShape.
Context `{H : LbmHeader}.

Lemma run0_fold P m e q i :
  in_box (grown P) q → (i < ncomp)%nat →
  fold (run P m e 0) q i
  = fequilibrium 1%R
      (0%R, (A P * sin (2 * PI * IZR (ivx q) / IZR (nx P)))%R, 0%R) i.
Proof.
  intros Hq Hi. unfold run. simpl.
  by rewrite initial_output_fold, initialize_fold, decide_True.
Qed.

End InitialFieldShape.

(** X8.  The initial population field does not depend on y and z: two cells
    of the field, ghost cells included, with the same x-coordinate hold the
    same populations. *)
Theorem initial_field_is_independent_of_y_and_z `{H : LbmHeader}
    (pp : ParmParse) (m : RawMemory) (e : RandomEngine) (q q' : IntVect) (i : nat) :
  let P := read_params pp in
  in_box (grown P) q → in_box (grown P) q' → ivx q = ivx q' →
  (i < ncomp)%nat →
  fold (run P m e 0) q i = fold (run P m e 0) q' i.
Proof.
  intros P Hq Hq' Hx Hi. rewrite !run0_fold by done. by rewrite Hx.
Qed.

(** The ghost cell (3, -1, 16) and the valid cell (3, 0, 0) of the default
    grid. *)
Lemma initial_field_is_independent_of_y_and_z_witness :
  let P := read_params (H := D3Q7.header) no_inputs in
  in_box (grown P) (3, -1, 16) ∧ in_box (grown P) (3, 0, 0) ∧
  ivx (3, -1, 16) = ivx (3, 0, 0) ∧ (2 < ncomp (LbmHeader := D3Q7.header))%nat ∧
  fold (run (H := D3Q7.header) P zero_memory quiet_engine 0) (3, -1, 16) 2%nat
  = fold (run (H := D3Q7.header) P zero_memory quiet_engine 0) (3, 0, 0) 2%nat.
Proof.
  intros P.
  assert (Hq : in_box (grown P) (3, -1, 16)) by (lazy; intuition discriminate).
  assert (Hq' : in_box (grown P) (3, 0, 0)) by (lazy; intuition discriminate).
  assert (Hx : ivx (3, -1, 16) = ivx (3, 0, 0)) by reflexivity.
  assert (Hi : (2 < ncomp (LbmHeader := D3Q7.header))%nat) by (simpl; lia).
  split_and!; [exact Hq|exact Hq'|exact Hx|exact Hi|].
  exact (initial_field_is_independent_of_y_and_z (H := D3Q7.header) no_inputs
           zero_memory quiet_engine (3, -1, 16) (3, 0, 0) 2%nat Hq Hq' Hx Hi).
Defined.

(** X9.  With a zero amplitude the initial field is uniform: every cell,
    ghost cells included, holds the equilibrium populations of density one
    at rest. *)
Theorem zero_amplitude_field_is_at_rest `{H : LbmHeader}
    (pp : ParmParse) (m : RawMemory) (e : RandomEngine) (q : IntVect) (i : nat) :
  let P := read_params pp in
  A P = 0%R → in_box (grown P) q → (i < ncomp)%nat →
  fold (run P m e 0) q i = fequilibrium 1%R (0%R, 0%R, 0%R) i.
Proof.
  intros P HA Hq Hi. rewrite run0_fold by done. rewrite HA.
  by rewrite Rmult_0_l.
Qed.

(** The inputs with [A = 0], at the cell (4, 0, 0). *)
Lemma zero_amplitude_field_is_at_rest_witness :
  let P := read_params (H := D3Q7.header) still_inputs in
  A P = 0%R ∧ in_box (grown P) (4, 0, 0) ∧
  (3 < ncomp (LbmHeader := D3Q7.header))%nat ∧
  fold (run (H := D3Q7.header) P zero_memory quiet_engine 0) (4, 0, 0) 3%nat
  = D3Q7.feq 1%R (0%R, 0%R, 0%R) 3.
Proof.
  intros P.
  assert (HA : A P = 0%R) by reflexivity.
  assert (Hq : in_box (grown P) (4, 0, 0)) by (lazy; intuition discriminate).
  assert (Hi : (3 < ncomp (LbmHeader := D3Q7.header))%nat) by (simpl; lia).
  split_and!; [exact HA|exact Hq|exact Hi|].
  exact (zero_amplitude_field_is_at_rest (H := D3Q7.header) still_inputs
           zero_memory quiet_engine (4, 0, 0) 3%nat HA Hq Hi).
Defined.

(** ** The two buffers and the region the driver writes *)

Section Buffers.
Context `{H : LbmHeader}.

Lemma timestep_fnew P step s :
  fnew (timestep P step s)
  = (stream_collide_all P (FillBoundary P (fold s)) (fnew s) (engine s)).1.
Proof.
  unfold timestep. destruct (stream_collide_all _ _ _ _). by case_decide.
Qed.

Lemma timestep_fold_outside P step s q i :
  ¬ in_box (grown P) q → fold (timestep P step s) q i = fold s q i.
Proof.
  intros Hq. rewrite timestep_fold. unfold Copy, FillBoundary.
  rewrite decide_False, decide_False; [done|tauto|].
  intros [Hd _]. apply Hq. revert Hd.
  unfold in_box, grown, grow, domain, nghost, ivx, ivy, ivz. simpl. lia.
Qed.

Lemma run_fold_outside P m e n q i :
  ¬ in_box (grown P) q → fold (run P m e n) q i = raw_fold m q i.
Proof.
  intros Hq. induction n as [|n IH].
  - unfold run. simpl. rewrite initial_output_fold, initialize_fold.
    rewrite decide_False; [done|tauto].
  - by rewrite run_S, timestep_fold_outside.
Qed.

Lemma run_hydrovars_outside P m e n q k :
  ¬ in_box (grown P) q ∨ (3 ≤ k)%nat →
  hydrovars (run P m e n) q k = raw_hydrovars m q k.
Proof.
  intros Hqk. induction n as [|n IH].
  - unfold run. simpl. rewrite initial_output_hydrovars.
    rewrite decide_False; [done|]. intros (_ & Hq & Hk). destruct Hqk; [tauto|lia].
  - rewrite run_S, timestep_hydrovars, decide_False; [done|].
    intros (_ & Hq & Hk). destruct Hqk; [tauto|lia].
Qed.

End Buffers.

(** X10.  After a time step the two population buffers agree on every valid
    cell (the new generation is copied into the old buffer), while every
    ghost cell of the old buffer holds the value the previous field had at
    the periodic image of that cell: the ghost cells are one step behind
    until the next [FillBoundary]. *)
Theorem buffers_after_a_time_step `{H : LbmHeader}
    (P : Params) (step : Z) (s : State) (q : IntVect) (i : nat) :
  (in_box (domain P) q → (i < ncomp)%nat →
   fold (timestep P step s) q i = fnew (timestep P step s) q i) ∧
  (in_box (grown P) q → ¬ in_box (domain P) q →
   fold (timestep P step s) q i = fold s (periodic_image P q) i).
Proof.
  rewrite timestep_fold, timestep_fnew. unfold Copy, FillBoundary. split.
  - intros Hq Hi. by rewrite decide_True.
  - intros Hg Hd. rewrite decide_False, decide_True; [done|done|tauto].
Qed.

(** The first step of the default run, at the valid cell (0, 0, 0) and at
    the ghost cell (16, 0, 0), whose periodic image is (0, 0, 0). *)
Lemma buffers_after_a_time_step_witness :
  let P := read_params (H := D3Q7.header) no_inputs in
  let s := run (H := D3Q7.header) P zero_memory quiet_engine 0 in
  in_box (domain P) (0, 0, 0) ∧ in_box (grown P) (16, 0, 0) ∧
  ¬ in_box (domain P) (16, 0, 0) ∧
  fold (timestep P 1 s) (0, 0, 0) 1%nat = fnew (timestep P 1 s) (0, 0, 0) 1%nat ∧
  fold (timestep P 1 s) (16, 0, 0) 1%nat = fold s (0, 0, 0) 1%nat.
Proof.
  intros P s.
  assert (Hd : in_box (domain P) (0, 0, 0)) by (lazy; intuition discriminate).
  assert (Hg : in_box (grown P) (16, 0, 0)) by (lazy; intuition discriminate).
  assert (Hn : ¬ in_box (domain P) (16, 0, 0)) by (lazy; intuition).
  split_and!; [exact Hd|exact Hg|exact Hn|..].
  - apply (buffers_after_a_time_step P 1 s (0, 0, 0) 1%nat); [exact Hd|simpl; lia].
  - exact (proj2 (buffers_after_a_time_step P 1 s (16, 0, 0) 1%nat) Hg Hn).
Defined.

(** X11.  A run never writes the population field outside the domain grown
    by its ghost layer, and never writes the hydrodynamic field outside that
    region or beyond its three components: there both fields end as the
    allocation left them. *)
Theorem run_stays_inside_its_fields `{H : LbmHeader}
    (pp : ParmParse) (m : RawMemory) (e : RandomEngine) (q : IntVect) (k : nat) :
  let P := read_params pp in
  (¬ in_box (grown P) q → fold (main_driver pp m e) q k = raw_fold m q k) ∧
  (¬ in_box (grown P) q ∨ (3 ≤ k)%nat →
   hydrovars (main_driver pp m e) q k = raw_hydrovars m q k).
Proof.
  intros P. split; intros Hq.
  - by apply run_fold_outside.
  - by apply run_hydrovars_outside.
Qed.

(** The default run at the cell (17, 0, 0), outside the grown domain. *)
Lemma run_stays_inside_its_fields_witness :
  let P := read_params (H := D3Q7.header) no_inputs in
  ¬ in_box (grown P) (17, 0, 0) ∧
  fold (main_driver (H := D3Q7.header) no_inputs zero_memory quiet_engine)
    (17, 0, 0) 0%nat = 0%R.
Proof.
  intros P.
  assert (Hq : ¬ in_box (grown P) (17, 0, 0)) by (lazy; intuition).
  split; [exact Hq|].
  exact (proj1 (run_stays_inside_its_fields (H := D3Q7.header) no_inputs
                  zero_memory quiet_engine (17, 0, 0) 0%nat) Hq).
Defined.

(** ** The two output kernels side by side *)

(** X12.  At an output step of the time loop, component 0 of a cell of the
    hydrodynamic field receives exactly what the output kernel of step 0
    would store in component 1 for the same population field: the first
    component of the plot files is the moment along x at step 0 and the
    moment along y afterwards. *)
Theorem later_output_slot_0_is_step0_slot_1 `{H : LbmHeader}
    (P : Params) (step : Z) (s : State) (q : IntVect) :
  output_step P step → in_box (grown P) q →
  hydrovars (timestep P step s) q 0%nat
  = hydrovars (initial_output P (timestep P step s)) q 1%nat.
Proof.
  intros Ho Hq. destruct Ho as [Hp Hr].
  rewrite timestep_hydrovars, decide_True.
  - rewrite initial_output_hydrovars, decide_True; [done|].
    split_and!; [done|done|lia].
  - split_and!; done.
Qed.

(** A time step with output at every step, on the field of density 3. *)
Lemma later_output_slot_0_is_step0_slot_1_witness :
  let P := mkParams 16 20 1 1%R 0%R 0.001%R in
  let s := mkState (H := D3Q7.header) heavy_field setVal0 setVal0 setVal0 0%R
             quiet_engine [] in
  output_step P 1 ∧ in_box (grown P) (4, 0, 0) ∧
  hydrovars (timestep P 1 s) (4, 0, 0) 0%nat
  = hydrovars (initial_output P (timestep P 1 s)) (4, 0, 0) 1%nat.
Proof.
  intros P s.
  assert (Ho : output_step P 1) by (split; reflexivity).
  assert (Hq : in_box (grown P) (4, 0, 0)) by (lazy; intuition discriminate).
  split; [exact Ho|]. split; [exact Hq|].
  apply later_output_slot_0_is_step0_slot_1; assumption.
Defined.

(** ** The first output of the time loop on the seven-velocity lattice

    The run on [some_inputs] with the kernels of the specification: what the
    plot file of step 1 holds a quarter of the way along x, next to the
    velocity of the population field of that step. *)

Example read_some_inputs :
  read_params (H := D3Q7.header) some_inputs = every_step_params.
Proof. reflexivity. Qed.

Section FirstStep.
Context (L : MrtModel) (P : Params) (HN : 0 < nx P).
Context (Hg : ∀ (rho : R) (u : R * R * R),
                mdensity L (equilibrium L rho u) = rho ∧
                mmomentum L (equilibrium L rho u) 0 = (rho * u.1.1)%R ∧
                mmomentum L (equilibrium L rho u) 1 = (rho * u.1.2)%R ∧
                mmomentum L (equilibrium L rho u) 2 = (rho * u.2)%R).

#[local] Instance first_step_header : LbmHeader := spec_header L (nx P).

(** After a time step, a valid cell holds in direction [i] the
    post-collision population of its upstream cell. *)
Lemma timestep_fold_upstream (step : Z) (s : State) (q : IntVect) (i : nat) :
  in_box (domain P) q → (i < Q L)%nat →
  ∃ e' : Engine L,
    fold (timestep P step s) q i
    = collide L (fold s (upstream L (nx P) q i)) (tau P) (temperature P) e' i.
Proof.
  intros Hq Hi. rewrite timestep_fold.
  destruct (kernel_pass_is_stream L P (FillBoundary P (fold s)) (tau P)
              (temperature P) (box_cells (domain P)) (NoDup_box_cells _)
              (fnew s) (engine s)) as [eng Heng].
  change ((stream_collide_all P (FillBoundary P (fold s)) (fnew s) (engine s)).1
          = stream L (nx P)
              (fun p => collide L (FillBoundary P (fold s) p) (tau P) (temperature P)
                          (eng p))
              (fnew s)) in Heng.
  rewrite Heng. exists (eng (upstream L (nx P) q i)).
  unfold Copy. rewrite decide_True by done.
  rewrite stream_spec by done.
  pose proof (upstream_in_cube L (nx P) HN q i) as Hu.
  assert (Hf : FillBoundary P (fold s) (upstream L (nx P) q i)
               = fold s (upstream L (nx P) q i)).
  { unfold FillBoundary.
    destruct (decide (in_box (grown P) (upstream L (nx P) q i)
                      ∧ ¬ in_box (domain P) (upstream L (nx P) q i)))
      as [[_ Hout]|_]; [|done].
    exfalso. by apply Hout. }
  by rewrite Hf.
Qed.

(** At temperature zero the collision leaves an equilibrium population
    vector as it is. *)
Lemma collide_equilibrium_cold (f : nat → R) (rho : R) (u : R * R * R)
    (tau T : R) (e : Engine L) (i : nat) :
  rho ≠ 0%R → T = 0%R →
  (∀ j, (j < Q L)%nat → f j = equilibrium L rho u j) →
  collide L f tau T e i = equilibrium L rho u i.
Proof.
  intros Hrho HT Hf. destruct u as [[u0 u1] u2].
  destruct (Hg rho (u0, u1, u2)) as (Ed & E0 & E1 & E2). simpl in E0, E1, E2.
  assert (Fd : mdensity L f = rho).
  { rewrite <- Ed. apply sum_n_ext. exact Hf. }
  assert (Fm : ∀ k, mmomentum L f k = mmomentum L (equilibrium L rho (u0, u1, u2)) k).
  { intros k. apply sum_n_ext. intros j Hj. by rewrite Hf. }
  unfold collide, relax. cbn [moments]. rewrite Fd, !Fm, E0, E1, E2.
  replace (rho * u0 / rho)%R with u0 by (field; done).
  replace (rho * u1 / rho)%R with u1 by (field; done).
  replace (rho * u2 / rho)%R with u2 by (field; done).
  rewrite correction_cold by done.
  assert (Hz : from_moments L
                 (fun a => to_moments L (fun j => f j - equilibrium L rho (u0, u1, u2) j) a
                           - rate L tau a
                             * to_moments L
                                 (fun j => f j - equilibrium L rho (u0, u1, u2) j) a
                           + 0)%R i = 0%R).
  { unfold from_moments.
    rewrite (sum_n_ext _ _ (fun _ => 0%R)); [apply sum_n_zero|].
    intros a _.
    assert (Hm : to_moments L (fun j => f j - equilibrium L rho (u0, u1, u2) j)%R a
                 = 0%R).
    { unfold to_moments. rewrite (sum_n_ext _ _ (fun _ => 0%R)); [apply sum_n_zero|].
      intros j Hj. rewrite Hf by done. lra. }
    rewrite Hm. lra. }
  rewrite Hz. lra.
Qed.

End FirstStep.

Lemma cube_in_grown (P : Params) (p : IntVect) :
  in_box (cube (nx P)) p → in_box (grown P) p.
Proof.
  destruct p as [[x y] z].
  unfold in_box, cube, grown, grow, domain, nghost, ivx, ivy, ivz. cbn. lia.
Qed.

Lemma default_wave_crest : default_wave 4 = 0.001%R.
Proof.
  unfold default_wave. replace (2 * PI * 4 / 16)%R with (PI / 2)%R by field.
  rewrite sin_PI2. lra.
Qed.

Lemma default_wave_small (x : Z) :
  (0 <= default_wave x * default_wave x <= 0.000001)%R.
Proof.
  unfold default_wave.
  pose proof (SIN_bound (2 * PI * IZR x / 16)) as [Hl Hu].
  split; nra.
Qed.

Lemma Rabs_div_small (a b c : R) :
  (0 < b)%R → (- (c * b) < a < c * b)%R → (Rabs (a / b) < c)%R.
Proof.
  intros Hb [Hl Hu].
  assert (E : (a / b * b)%R = a) by (field; lra).
  apply Rabs_def1; apply (Rmult_lt_reg_r b); lra.
Qed.

(** The population field after the first step: every valid cell holds, in
    each direction, the initial population of its upstream cell. *)
Lemma first_step_fold (q : IntVect) (i : nat) :
  in_box (domain every_step_params) q → (i < 7)%nat →
  fold (run (H := D3Q7.header) every_step_params zero_memory quiet_engine 1) q i
  = D3Q7.feq 1%R
      (0%R, default_wave (ivx (upstream D3Q7.model 16 q i)), 0%R) i.
Proof.
  intros Hq Hi. rewrite run_S.
  assert (HN : 0 < nx every_step_params) by reflexivity.
  destruct (timestep_fold_upstream D3Q7.model every_step_params HN 1
              (run (H := D3Q7.header) every_step_params zero_memory quiet_engine 0)
              q i Hq Hi) as [e' He].
  etransitivity; [exact He|].
  apply (collide_equilibrium_cold D3Q7.model D3Q7_equilibrium_guarantee);
    [lra|reflexivity|].
  intros j Hj.
  apply (run0_fold (H := D3Q7.header) every_step_params zero_memory quiet_engine);
    [|exact Hj].
  apply (cube_in_grown every_step_params), (upstream_in_cube D3Q7.model 16). lia.
Qed.

Ltac upstream_of_crest :=
  change (ivx (upstream D3Q7.model 16 (4, 0, 0) 0)) with 4;
  change (ivx (upstream D3Q7.model 16 (4, 0, 0) 1)) with 3;
  change (ivx (upstream D3Q7.model 16 (4, 0, 0) 2)) with 5;
  change (ivx (upstream D3Q7.model 16 (4, 0, 0) 3)) with 4;
  change (ivx (upstream D3Q7.model 16 (4, 0, 0) 4)) with 4;
  change (ivx (upstream D3Q7.model 16 (4, 0, 0) 5)) with 4;
  change (ivx (upstream D3Q7.model 16 (4, 0, 0) 6)) with 4;
  rewrite default_wave_crest;
  unfold D3Q7.feq, D3Q7.cu, D3Q7.weight, D3Q7.dir, ivx, ivy, ivz; simpl;
  pose proof (default_wave_small 3); pose proof (default_wave_small 5);
  generalize dependent (default_wave 3); generalize dependent (default_wave 5).

(** On [some_inputs] (nsteps = 20, plot_int = 1, the rest default) and the
    seven-velocity lattice, the plot file of step 1 holds 0.001 in component
    0 of the cell (4, 0, 0): the moment along y of its population vector.
    The x-component of the velocity of that population vector is below
    0.000001 in absolute value. *)
Lemma first_output_is_not_the_velocity :
  let s1 := run (H := D3Q7.header) every_step_params zero_memory quiet_engine 1 in
  last (snapshots (out s1)) = Some (1, hydrovars s1) ∧
  hydrovars s1 (4, 0, 0) 0%nat = 0.001%R ∧
  (Rabs (velocity (H := D3Q7.header) (fold s1 (4, 0, 0)%Z) 0%nat) < 0.000001)%R.
Proof.
  intros s1.
  assert (Ho : output_step every_step_params 1) by (split; reflexivity).
  assert (Hd : in_box (domain every_step_params) (4, 0, 0))
    by (lazy; intuition discriminate).
  assert (Hg : in_box (grown every_step_params) (4, 0, 0))
    by (lazy; intuition discriminate).
  assert (Hf : ∀ k,
            momentum (H := D3Q7.header) (fold s1 (4, 0, 0)) k
            = sum_n 7 (fun i =>
                D3Q7.feq 1%R
                  (0%R, default_wave (ivx (upstream D3Q7.model 16 (4, 0, 0)%Z i)), 0%R) i
                * IZR (D3Q7.dir i k))%R).
  { intros k. apply sum_n_ext. intros i Hi. unfold s1.
    by rewrite first_step_fold. }
  assert (Hr : density (H := D3Q7.header) (fold s1 (4, 0, 0))
               = sum_n 7 (fun i =>
                   D3Q7.feq 1%R
                     (0%R, default_wave (ivx (upstream D3Q7.model 16 (4, 0, 0)%Z i)), 0%R) i)).
  { apply sum_n_ext. intros i Hi. unfold s1. by rewrite first_step_fold. }
  split_and!.
  - unfold s1. rewrite run_snapshots_S, decide_True by exact Ho.
    by rewrite last_snoc.
  - unfold s1. rewrite run_S, timestep_hydrovars, decide_True by done.
    rewrite <- run_S. fold s1. rewrite Hf. clear. simpl. upstream_of_crest.
    intros. lra.
  - unfold velocity. rewrite Hf, Hr. clear. simpl. upstream_of_crest.
    intros w5 H5 w3 H3. apply Rabs_div_small; [nra|split; nra].
Qed.
